(** * jsonutils/ordered_map.go: order-preserving JSON objects

    A shallow embedding of [JSONMapSlice], [JSONMapItem] and of their
    encoder and decoder, together with a model of the part of Go's
    [encoding/json] token API and of [strconv] that the decoder drives.

    Conventions.
    - A Go [byte] is a [Z] in [0, 256); [[]byte] and [string] are both
      [list Z] (a Go string is its bytes, and the conversions between the
      two copy the bytes unchanged).
    - A Go slice that may be [nil] is an [option (list _)]: [None] is the
      nil slice, [Some []] the empty slice made by [make(T, 0)].
    - A Go [error] value is an [option error], [None] being [nil].
    - Unbounded [for] loops and recursion take a [fuel] argument; a run
      that needs more steps than its fuel ends in [OutOfFuel].  A Go
      run-time panic is the outcome [Panic]; [log.Fatal] is [Fatal]. *)

From Stdlib Require Import ZArith List Bool Lia String Ascii.
Import ListNotations.
Open Scope Z_scope.


(** ** Bytes *)

Definition bytes := list Z.

(** The bytes of a string literal. *)
Fixpoint bs (s : string) : bytes :=
  match s with
  | EmptyString => []
  | String c r => Z.of_N (N_of_ascii c) :: bs r
  end.

(** As [bs], with every apostrophe standing for a quotation mark, to write
    JSON text inside a string literal: [js "{'a':1}"]. *)
Definition js (s : string) : bytes :=
  map (fun b => if b =? 39 then 34 else b) (bs s).

(** ** Outcomes of a run *)

Inductive panic :=
| IndexOutOfRange (index : nat) (len : nat)
| TypeAssertion.

Inductive outcome (A : Type) :=
| Ret (a : A)
| Panic (p : panic)
| Fatal
| OutOfFuel.

Arguments Ret {A} a.
Arguments Panic {A} p.
Arguments Fatal {A}.
Arguments OutOfFuel {A}.

Definition bind {A B} (m : outcome A) (k : A -> outcome B) : outcome B :=
  match m with
  | Ret a => k a
  | Panic p => Panic p
  | Fatal => Fatal
  | OutOfFuel => OutOfFuel
  end.

Notation "x <- m ;; k" := (bind m (fun x => k))
  (at level 61, m at next level, right associativity).
Notation "' p <- m ;; k" := (bind m (fun x => let p := x in k))
  (at level 61, p pattern, m at next level, right associativity).

(** ** Errors *)

Inductive error :=
| EOF                               (* io.EOF *)
| ErrUnexpectedEOF                  (* io.ErrUnexpectedEOF *)
| SyntaxError (c : Z) (offset : nat) (* *json.SyntaxError at byte c *)
| UnmarshalTypeError (value : bytes) (* *json.UnmarshalTypeError *)
| UnsupportedTypeError              (* *json.UnsupportedTypeError *)
| Errorf (msg : string).            (* fmt.Errorf *)

Definition is_EOF (e : option error) : bool :=
  match e with Some EOF => true | _ => false end.

(** ** The value model

    [any] holds what the decoder can store in an [any]-typed Go variable
    and what a [json.Token] can be.  A [float64] produced by
    [strconv.ParseFloat] is kept as the decimal literal it was parsed
    from; no claim depends on its numeric value.  [AOther] stands for any
    Go value of a kind the JSON writer cannot render (a channel, a
    function). *)

Unset Elimination Schemes.

Inductive any :=
| Nil
| ABool (b : bool)
| AFloat64 (lit : bytes)
| AInt64 (n : Z)
| AString (s : bytes)
| ADelim (c : Z)
| ASlice (l : list any)
| AMapSlice (s : option (list JSONMapItem))
| AOther
with JSONMapItem :=
| MkItem (Key : bytes) (Value : any).

Set Elimination Schemes.

Definition Key (it : JSONMapItem) : bytes := let 'MkItem k _ := it in k.
Definition Value (it : JSONMapItem) : any := let 'MkItem _ v := it in v.

(** [type JSONMapSlice []JSONMapItem] *)
Definition JSONMapSlice := option (list JSONMapItem).

(** The zero value of [JSONMapItem]: empty key, nil value. *)
Definition zeroItem : JSONMapItem := MkItem [] Nil.

(** [len(s)]; the length of a nil slice is 0. *)
Definition len (s : JSONMapSlice) : nat :=
  match s with None => O | Some l => List.length l end.

(** ** strconv *)

Module strconv.

(** Decimal digits of [u], most significant first ([formatBits], base 10).
    An int64 has at most 19 digits. *)
Fixpoint formatBits (fuel : nat) (u : Z) (acc : bytes) : bytes :=
  match fuel with
  | O => acc
  | S f =>
      let acc' := (48 + u mod 10) :: acc in
      if u <? 10 then acc' else formatBits f (u / 10) acc'
  end.

Definition FormatInt (n : Z) : bytes :=
  if n <? 0 then 45 :: formatBits 20 (- n) [] else formatBits 20 n [].

Definition isDigit (c : Z) : bool := (48 <=? c) && (c <=? 57).

(** [ParseUint(s, 10, 64)], on a non-empty [s]: the value, or the error.
    On overflow Go returns the largest uint64 with [ErrRange]. *)
Inductive numError := ErrSyntax | ErrRange.

Fixpoint parseDigits (s : bytes) (acc : Z) : Z * option numError :=
  match s with
  | [] => (acc, None)
  | c :: r =>
      if isDigit c then
        let n := acc * 10 + (c - 48) in
        if 2 ^ 64 <=? n then (2 ^ 64 - 1, Some ErrRange) else parseDigits r n
      else (0, Some ErrSyntax)
  end.

Definition ParseUint (s : bytes) : Z * option numError :=
  match s with
  | [] => (0, Some ErrSyntax)
  | _ => parseDigits s 0
  end.

(** [ParseInt(s, 10, 64)]. *)
Definition ParseInt (s : bytes) : Z * option numError :=
  match s with
  | [] => (0, Some ErrSyntax)
  | c :: r =>
      let neg := c =? 45 in
      let s' := if (c =? 43) || (c =? 45) then r else s in
      match ParseUint s' with
      | (un, Some ErrSyntax) => (0, Some ErrSyntax)
      | (un, _) =>
          if negb neg && (2 ^ 63 <=? un) then (2 ^ 63 - 1, Some ErrRange)
          else if neg && (2 ^ 63 <? un) then (- 2 ^ 63, Some ErrRange)
          else (if neg then - un else un, None)
      end
  end.

End strconv.

(** [strings.ContainsRune(s, r)] for an ASCII rune. *)
Definition ContainsRune (s : bytes) (r : Z) : bool := existsb (Z.eqb r) s.

(** ** The encoder *)

Record jsonBuffer := { buffer : bytes; err : option error }.

Definition appendRawByte (jb : jsonBuffer) (b : Z) : jsonBuffer :=
  {| buffer := buffer jb ++ [b]; err := err jb |}.

Definition appendByteSlice (jb : jsonBuffer) (b : bytes) : jsonBuffer :=
  {| buffer := buffer jb ++ b; err := err jb |}.

Definition appendString (jb : jsonBuffer) (b : bytes) : jsonBuffer :=
  let jb := {| buffer := buffer jb ++ [34]; err := err jb |} in
  let jb := {| buffer := buffer jb ++ b; err := err jb |} in
  {| buffer := buffer jb ++ [34]; err := err jb |}.

Section Encoder.

(** [WriteJSON] is defined elsewhere in the package; the two
    [JSONmarshal] methods are written over it. *)
Variable WriteJSON : any -> outcome (bytes * option error).

(** [func (s JSONMapItem) JSONmarshal(jb *jsonBuffer)] *)
Definition JSONMapItem_JSONmarshal (s : JSONMapItem) (jb : jsonBuffer)
  : outcome jsonBuffer :=
  let jb := appendString jb (Key s) in
  let jb := appendRawByte jb 58 in
  '(jsonRes, e) <- WriteJSON (Value s) ;;
  match e with
  | Some _ => Fatal
  | None => Ret (appendByteSlice jb jsonRes)
  end.

(** The loop [for i := 1; i < len(s); i++] over the items after the
    first. *)
Fixpoint JSONmarshal_rest (l : list JSONMapItem) (w : jsonBuffer)
  : outcome jsonBuffer :=
  match l with
  | [] => Ret w
  | it :: r =>
      w <- JSONMapItem_JSONmarshal it (appendRawByte w 44) ;;
      JSONmarshal_rest r w
  end.

(** [func (s JSONMapSlice) JSONmarshal(w *jsonBuffer)] *)
Definition JSONMapSlice_JSONmarshal (s : JSONMapSlice) (w : jsonBuffer)
  : outcome jsonBuffer :=
  match s with
  | None => Ret (appendByteSlice w (bs "null"))
  | Some l =>
      let w := appendRawByte w 123 in
      match l with
      | [] => Ret (appendRawByte w 125)
      | s0 :: r =>
          w <- JSONMapItem_JSONmarshal s0 w ;;
          w <- JSONmarshal_rest r w ;;
          Ret (appendRawByte w 125)
      end
  end.

(** [func (s JSONMapSlice) MarshalJSON() ([]byte, error)] *)
Definition MarshalJSON (s : JSONMapSlice) : outcome (bytes * option error) :=
  w <- JSONMapSlice_JSONmarshal s {| buffer := []; err := None |} ;;
  Ret (buffer w, err w).

End Encoder.

(** ** unicode/utf8 and unicode/utf16 *)

Module utf8.

Definition RuneError : Z := 65533.

Definition cont (b : Z) : bool := (128 <=? b) && (b <=? 191).

(** [utf8.DecodeRune(p)]: the rune at the head of [p] and its width;
    [(RuneError, 1)] for an invalid or truncated encoding. *)
Definition DecodeRune (p : bytes) : Z * nat :=
  match p with
  | [] => (RuneError, 0%nat)
  | p0 :: r =>
      if p0 <? 128 then (p0, 1%nat)
      else if (p0 <? 194) || (244 <? p0) then (RuneError, 1%nat)
      else
        let sz := if p0 <? 224 then 2%nat else if p0 <? 240 then 3%nat else 4%nat in
        let lo := if p0 =? 224 then 160 else if p0 =? 240 then 144 else 128 in
        let hi := if p0 =? 237 then 159 else if p0 =? 244 then 143 else 191 in
        if (List.length p <? sz)%nat then (RuneError, 1%nat)
        else
          let b1 := nth 1 p 0 in
          if (b1 <? lo) || (hi <? b1) then (RuneError, 1%nat)
          else if (sz <=? 2)%nat then
            (Z.lor (Z.shiftl (Z.land p0 31) 6) (Z.land b1 63), 2%nat)
          else
            let b2 := nth 2 p 0 in
            if negb (cont b2) then (RuneError, 1%nat)
            else if (sz <=? 3)%nat then
              (Z.lor (Z.lor (Z.shiftl (Z.land p0 15) 12)
                            (Z.shiftl (Z.land b1 63) 6))
                     (Z.land b2 63), 3%nat)
            else
              let b3 := nth 3 p 0 in
              if negb (cont b3) then (RuneError, 1%nat)
              else
                (Z.lor (Z.lor (Z.lor (Z.shiftl (Z.land p0 7) 18)
                                     (Z.shiftl (Z.land b1 63) 12))
                              (Z.shiftl (Z.land b2 63) 6))
                       (Z.land b3 63), 4%nat)
  end.

(** [utf8.EncodeRune]: the UTF-8 encoding of [r]; a surrogate or a value
    out of range is encoded as [RuneError]. *)
Definition EncodeRune (r : Z) : bytes :=
  let enc3 r :=
    [Z.lor 224 (Z.shiftr r 12);
     Z.lor 128 (Z.land (Z.shiftr r 6) 63);
     Z.lor 128 (Z.land r 63)] in
  if (0 <=? r) && (r <=? 127) then [r]
  else if (0 <=? r) && (r <=? 2047) then
    [Z.lor 192 (Z.shiftr r 6); Z.lor 128 (Z.land r 63)]
  else if (r <? 0) || (1114111 <? r) || ((55296 <=? r) && (r <=? 57343)) then
    enc3 RuneError
  else if r <=? 65535 then enc3 r
  else
    [Z.lor 240 (Z.shiftr r 18);
     Z.lor 128 (Z.land (Z.shiftr r 12) 63);
     Z.lor 128 (Z.land (Z.shiftr r 6) 63);
     Z.lor 128 (Z.land r 63)].

End utf8.

Module utf16.

Definition IsSurrogate (r : Z) : bool := (55296 <=? r) && (r <? 57344).

Definition DecodeRune (r1 r2 : Z) : Z :=
  if (55296 <=? r1) && (r1 <? 56320) && (56320 <=? r2) && (r2 <? 57344)
  then Z.lor (Z.shiftl (r1 - 55296) 10) (r2 - 56320) + 65536
  else 65533.

End utf16.

(** ** encoding/json: the scanner, the literal decoder and the token API

    [UnmarshalJSON] builds [json.NewDecoder(bytes.NewReader(data))] and
    drives it through [Token], [More] and [InputOffset].  The reader hands
    over the whole of [data] and then reports [io.EOF], so the decoder
    state is the input, the absolute offset of the next unread byte
    ([scanned + scanp] in Go), the sticky error, and the token state with
    its stack. *)

Module json.

Definition isSpace (c : Z) : bool :=
  (c =? 32) || (c =? 9) || (c =? 13) || (c =? 10).

Definition isDigit := strconv.isDigit.

Definition isHex (c : Z) : bool :=
  isDigit c || ((97 <=? c) && (c <=? 102)) || ((65 <=? c) && (c <=? 70)).

(** *** scanner.go

    [Token] calls [Decode] only when the next byte is none of the six
    structural characters, so the value the scanner reads is a literal: a
    string, a number, [true], [false] or [null].  The parse-state stack of
    the scanner stays empty and is left out. *)

Inductive scanStep :=
| stateBeginValue
| stateInString | stateInStringEsc
| stateInStringEscU | stateInStringEscU1 | stateInStringEscU12
| stateInStringEscU123
| stateNeg | state1 | state0 | stateDot | stateDot0
| stateE | stateESign | stateE0
| stateT | stateTr | stateTru
| stateF | stateFa | stateFal | stateFals
| stateN | stateNu | stateNul
| stateEndValue.

Inductive opcode :=
| scanContinue | scanBeginLiteral | scanSkipSpace | scanEnd | scanError.

Definition expect (c want : Z) (next : scanStep) (cur : scanStep)
  : scanStep * opcode :=
  if c =? want then (next, scanContinue) else (cur, scanError).

Definition step_state0 (c : Z) : scanStep * opcode :=
  if c =? 46 then (stateDot, scanContinue)
  else if (c =? 101) || (c =? 69) then (stateE, scanContinue)
  else (stateEndValue, scanEnd).

Definition step_stateESign (c : Z) : scanStep * opcode :=
  if isDigit c then (stateE0, scanContinue) else (stateESign, scanError).

(** One call of [s.step(s, c)]: the next step function and the opcode.
    With an empty parse state [stateEndValue] is [stateEndTop], which
    answers [scanEnd] whatever the byte. *)
Definition step (s : scanStep) (c : Z) : scanStep * opcode :=
  match s with
  | stateBeginValue =>
      if isSpace c then (s, scanSkipSpace)
      else if c =? 34 then (stateInString, scanBeginLiteral)
      else if c =? 45 then (stateNeg, scanBeginLiteral)
      else if c =? 48 then (state0, scanBeginLiteral)
      else if c =? 116 then (stateT, scanBeginLiteral)
      else if c =? 102 then (stateF, scanBeginLiteral)
      else if c =? 110 then (stateN, scanBeginLiteral)
      else if (49 <=? c) && (c <=? 57) then (state1, scanBeginLiteral)
      else (s, scanError)
  | stateInString =>
      if c =? 34 then (stateEndValue, scanContinue)
      else if c =? 92 then (stateInStringEsc, scanContinue)
      else if c <? 32 then (s, scanError)
      else (s, scanContinue)
  | stateInStringEsc =>
      if (c =? 98) || (c =? 102) || (c =? 110) || (c =? 114) || (c =? 116)
         || (c =? 92) || (c =? 47) || (c =? 34)
      then (stateInString, scanContinue)
      else if c =? 117 then (stateInStringEscU, scanContinue)
      else (s, scanError)
  | stateInStringEscU =>
      if isHex c then (stateInStringEscU1, scanContinue) else (s, scanError)
  | stateInStringEscU1 =>
      if isHex c then (stateInStringEscU12, scanContinue) else (s, scanError)
  | stateInStringEscU12 =>
      if isHex c then (stateInStringEscU123, scanContinue) else (s, scanError)
  | stateInStringEscU123 =>
      if isHex c then (stateInString, scanContinue) else (s, scanError)
  | stateNeg =>
      if c =? 48 then (state0, scanContinue)
      else if (49 <=? c) && (c <=? 57) then (state1, scanContinue)
      else (s, scanError)
  | state1 =>
      if isDigit c then (state1, scanContinue) else step_state0 c
  | state0 => step_state0 c
  | stateDot =>
      if isDigit c then (stateDot0, scanContinue) else (s, scanError)
  | stateDot0 =>
      if isDigit c then (s, scanContinue)
      else if (c =? 101) || (c =? 69) then (stateE, scanContinue)
      else (stateEndValue, scanEnd)
  | stateE =>
      if (c =? 43) || (c =? 45) then (stateESign, scanContinue)
      else step_stateESign c
  | stateESign => step_stateESign c
  | stateE0 =>
      if isDigit c then (s, scanContinue) else (stateEndValue, scanEnd)
  | stateT => expect c 114 stateTr s
  | stateTr => expect c 117 stateTru s
  | stateTru => expect c 101 stateEndValue s
  | stateF => expect c 97 stateFa s
  | stateFa => expect c 108 stateFal s
  | stateFal => expect c 115 stateFals s
  | stateFals => expect c 101 stateEndValue s
  | stateN => expect c 117 stateNu s
  | stateNu => expect c 108 stateNul s
  | stateNul => expect c 108 stateEndValue s
  | stateEndValue => (stateEndValue, scanEnd)
  end.

(** *** decode.go: literals *)

Definition hexval (c : Z) : Z :=
  if isDigit c then c - 48
  else if (97 <=? c) && (c <=? 102) then c - 97 + 10
  else if (65 <=? c) && (c <=? 70) then c - 65 + 10
  else -1.

(** [getu4(s)]: the rune of a [\uXXXX] escape at the head of [s], or -1. *)
Definition getu4 (s : bytes) : Z :=
  match s with
  | x :: y :: a :: b :: c :: d :: _ =>
      if (x =? 92) && (y =? 117) && isHex a && isHex b && isHex c && isHex d
      then ((hexval a * 16 + hexval b) * 16 + hexval c) * 16 + hexval d
      else -1
  | _ => -1
  end.

(** The first loop of [unquoteBytes]: does the text need no rewriting? *)
Fixpoint unquote_plain (fuel : nat) (s : bytes) : bool :=
  match fuel with
  | O => false
  | S f =>
      match s with
      | [] => true
      | c :: r =>
          if (c =? 92) || (c =? 34) || (c <? 32) then false
          else if c <? 128 then unquote_plain f r
          else
            let '(rr, size) := utf8.DecodeRune s in
            if (rr =? utf8.RuneError) && (size =? 1)%nat then false
            else unquote_plain f (skipn size s)
      end
  end.

(** The second loop of [unquoteBytes]; [None] is [ok == false]. *)
Fixpoint unquote_rewrite (fuel : nat) (s : bytes) : option bytes :=
  match fuel with
  | O => None
  | S f =>
      match s with
      | [] => Some []
      | c :: r =>
          if c =? 92 then
            match r with
            | [] => None
            | e :: r' =>
                let lit b := option_map (cons b) (unquote_rewrite f r') in
                if (e =? 34) || (e =? 92) || (e =? 47) || (e =? 39) then lit e
                else if e =? 98 then lit 8
                else if e =? 102 then lit 12
                else if e =? 110 then lit 10
                else if e =? 114 then lit 13
                else if e =? 116 then lit 9
                else if e =? 117 then
                  let rr := getu4 s in
                  if rr <? 0 then None
                  else
                    let s1 := skipn 6 s in
                    if utf16.IsSurrogate rr then
                      let dec := utf16.DecodeRune rr (getu4 s1) in
                      if negb (dec =? 65533) then
                        option_map (app (utf8.EncodeRune dec))
                                   (unquote_rewrite f (skipn 6 s1))
                      else
                        option_map (app (utf8.EncodeRune 65533))
                                   (unquote_rewrite f s1)
                    else
                      option_map (app (utf8.EncodeRune rr))
                                 (unquote_rewrite f s1)
                else None
            end
          else if (c =? 34) || (c <? 32) then None
          else if c <? 128 then option_map (cons c) (unquote_rewrite f r)
          else
            let '(rr, size) := utf8.DecodeRune s in
            option_map (app (utf8.EncodeRune rr))
                       (unquote_rewrite f (skipn size s))
      end
  end.

(** [unquote(item)] for a quoted literal [item]. *)
Definition unquote (item : bytes) : option bytes :=
  match item with
  | 34 :: r =>
      match rev r with
      | 34 :: ri =>
          let s := rev ri in
          if unquote_plain (S (List.length s)) s then Some s
          else unquote_rewrite (S (List.length s)) s
      | _ => None
      end
  | _ => None
  end.

(** The value of a decimal literal accepted by the scanner, as a mantissa
    and a power of ten. *)
Fixpoint digitsValue (s : bytes) (acc : Z) : Z * bytes :=
  match s with
  | c :: r => if isDigit c then digitsValue r (acc * 10 + (c - 48)) else (acc, s)
  | [] => (acc, [])
  end.

Definition decimalOf (lit : bytes) : Z * Z :=
  let s := match lit with
           | c :: r => if c =? 45 then r else lit
           | [] => lit
           end in
  let '(ip, s) := digitsValue s 0 in
  let '(m, fl, s) :=
    match s with
    | c :: r =>
        if c =? 46 then
          let '(m, r') := digitsValue r ip in
          (m, Z.of_nat (List.length r - List.length r'), r')
        else (ip, 0, s)
    | [] => (ip, 0, s)
    end in
  let e :=
    match s with
    | _ :: c :: r =>
        if c =? 45 then - fst (digitsValue r 0)
        else if c =? 43 then fst (digitsValue r 0)
        else fst (digitsValue (c :: r) 0)
    | _ => 0
    end in
  (m, e - fl).

(** [strconv.ParseFloat(lit, 64)] rounds to the nearest float64 and
    reports [ErrRange] when the magnitude rounds to infinity, that is from
    [2^1024 - 2^970] on. *)
Definition ParseFloat_overflows (lit : bytes) : bool :=
  let '(m, e10) := decimalOf lit in
  if 0 <=? e10 then 2 ^ 1024 - 2 ^ 970 <=? m * 10 ^ e10
  else (2 ^ 1024 - 2 ^ 970) * 10 ^ (- e10) <=? m.

(** [literalInterface] on a scanned literal [item]: the value stored in
    the [any] (or [string]) target and the error saved by the decoder.
    [unquote] cannot fail on text the scanner has accepted. *)
Definition literalInterface (item : bytes) : any * option error :=
  match item with
  | [] => (Nil, None)
  | c :: _ =>
      if c =? 110 then (Nil, None)
      else if (c =? 116) || (c =? 102) then (ABool (c =? 116), None)
      else if c =? 34 then
        match unquote item with
        | Some s => (AString s, None)
        | None => (AString [], None)
        end
      else if ParseFloat_overflows item
      then (Nil, Some (UnmarshalTypeError item))
      else (AFloat64 item, None)
  end.

(** *** stream.go *)

Inductive tokenState :=
| tokenTopValue
| tokenArrayStart | tokenArrayValue | tokenArrayComma
| tokenObjectStart | tokenObjectKey | tokenObjectColon
| tokenObjectValue | tokenObjectComma.

Definition tokenState_eqb (a b : tokenState) : bool :=
  match a, b with
  | tokenTopValue, tokenTopValue
  | tokenArrayStart, tokenArrayStart
  | tokenArrayValue, tokenArrayValue
  | tokenArrayComma, tokenArrayComma
  | tokenObjectStart, tokenObjectStart
  | tokenObjectKey, tokenObjectKey
  | tokenObjectColon, tokenObjectColon
  | tokenObjectValue, tokenObjectValue
  | tokenObjectComma, tokenObjectComma => true
  | _, _ => false
  end.

Record Decoder := {
  buf : bytes;                    (* the input *)
  scanp : nat;                    (* offset of the next unread byte *)
  derr : option error;            (* dec.err *)
  tokState : tokenState;          (* dec.tokenState *)
  tokenStack : list tokenState    (* dec.tokenStack, top first *)
}.

Definition NewDecoder (data : bytes) : Decoder :=
  {| buf := data; scanp := 0; derr := None;
     tokState := tokenTopValue; tokenStack := [] |}.

Definition set_scanp (dec : Decoder) (i : nat) : Decoder :=
  {| buf := buf dec; scanp := i; derr := derr dec;
     tokState := tokState dec; tokenStack := tokenStack dec |}.

Definition set_derr (dec : Decoder) (e : option error) : Decoder :=
  {| buf := buf dec; scanp := scanp dec; derr := e;
     tokState := tokState dec; tokenStack := tokenStack dec |}.

Definition set_tokState (dec : Decoder) (s : tokenState) : Decoder :=
  {| buf := buf dec; scanp := scanp dec; derr := derr dec;
     tokState := s; tokenStack := tokenStack dec |}.

(** [dec.tokenStack = append(dec.tokenStack, dec.tokenState)], then the
    new state. *)
Definition push (dec : Decoder) (s : tokenState) : Decoder :=
  {| buf := buf dec; scanp := scanp dec; derr := derr dec;
     tokState := s; tokenStack := tokState dec :: tokenStack dec |}.

(** The state is restored from the top of the stack.  [Token] pops only
    inside an array or an object, where the stack is not empty. *)
Definition pop (dec : Decoder) : Decoder :=
  {| buf := buf dec; scanp := scanp dec; derr := derr dec;
     tokState := hd tokenTopValue (tokenStack dec);
     tokenStack := tl (tokenStack dec) |}.

(** [dec.InputOffset()] *)
Definition InputOffset (dec : Decoder) : nat := scanp dec.

Fixpoint skipSpace (rest : bytes) (i : nat) : option (Z * nat) :=
  match rest with
  | [] => None
  | c :: r => if isSpace c then skipSpace r (S i) else Some (c, i)
  end.

(** [dec.peek()]: the next byte that is not white space, the offset moved
    to it; at the end of the input [io.EOF], the offset unchanged. *)
Definition peek (dec : Decoder) : (Z + error) * Decoder :=
  match skipSpace (skipn (scanp dec) (buf dec)) (scanp dec) with
  | Some (c, i) => (inl c, set_scanp dec i)
  | None => (inr EOF, dec)
  end.

Definition tokenValueAllowed (dec : Decoder) : bool :=
  match tokState dec with
  | tokenTopValue | tokenArrayStart | tokenArrayValue | tokenObjectValue => true
  | _ => false
  end.

Definition tokenValueEnd (dec : Decoder) : Decoder :=
  match tokState dec with
  | tokenArrayStart | tokenArrayValue => set_tokState dec tokenArrayComma
  | tokenObjectValue => set_tokState dec tokenObjectComma
  | _ => dec
  end.

Definition tokenError (dec : Decoder) (c : Z) : any * option error * Decoder :=
  (Nil, Some (SyntaxError c (InputOffset dec)), dec).

(** [dec.tokenPrepareForDecode()] *)
Definition tokenPrepareForDecode (dec : Decoder) : option error * Decoder :=
  match tokState dec with
  | tokenArrayComma =>
      match peek dec with
      | (inr e, dec) => (Some e, dec)
      | (inl c, dec) =>
          if negb (c =? 44) then (Some (SyntaxError c (InputOffset dec)), dec)
          else (None, set_tokState (set_scanp dec (S (scanp dec))) tokenArrayValue)
      end
  | tokenObjectColon =>
      match peek dec with
      | (inr e, dec) => (Some e, dec)
      | (inl c, dec) =>
          if negb (c =? 58) then (Some (SyntaxError c (InputOffset dec)), dec)
          else (None, set_tokState (set_scanp dec (S (scanp dec))) tokenObjectValue)
      end
  | _ => (None, dec)
  end.

(** The scan of [dec.readValue()] from step [s] over the unread bytes
    [rest], [n] bytes being read already: the length of the value, or the
    error that [readValue] stores in [dec.err]. *)
Fixpoint readValue_scan (s : scanStep) (rest : bytes) (n : nat) (off : nat)
  : nat + error :=
  match rest with
  | [] =>
      match step s 32 with
      | (_, scanEnd) => inl n
      | _ => inr ErrUnexpectedEOF
      end
  | c :: r =>
      match step s c with
      | (_, scanEnd) => inl n
      | (_, scanError) => inr (SyntaxError c off)
      | (s', _) => readValue_scan s' r (S n) (S off)
      end
  end.

Definition readValue (dec : Decoder) : nat + error :=
  readValue_scan stateBeginValue (skipn (scanp dec) (buf dec)) 0 (scanp dec).

(** [dec.Decode(&x)] as [Token] calls it, for [x] an [any] or a [string]. *)
Definition Decode (dec : Decoder) : any * option error * Decoder :=
  match derr dec with
  | Some e => (Nil, Some e, dec)
  | None =>
      match tokenPrepareForDecode dec with
      | (Some e, dec) => (Nil, Some e, dec)
      | (None, dec) =>
          if negb (tokenValueAllowed dec)
          then (Nil, Some (SyntaxError 0 (InputOffset dec)), dec)
          else
            match readValue dec with
            | inr e => (Nil, Some e, set_derr dec (Some e))
            | inl n =>
                let item := firstn n (skipn (scanp dec) (buf dec)) in
                let dec := set_scanp dec (scanp dec + n) in
                let '(x, e) := literalInterface item in
                (x, e, tokenValueEnd dec)
            end
      end
  end.

(** The body of the [for] loop of [dec.Token()], [continue] being the
    next round of the loop. *)
Definition Token_body (continue : Decoder -> any * option error * Decoder)
  (dec : Decoder) : any * option error * Decoder :=
  match peek dec with
  | (inr e, dec) => (Nil, Some e, dec)
  | (inl c, dec) =>
      let advance d := set_scanp d (S (scanp d)) in
      if c =? 91 then
        if negb (tokenValueAllowed dec) then tokenError dec c
        else (ADelim 91, None, push (advance dec) tokenArrayStart)
      else if c =? 93 then
        if negb (tokenState_eqb (tokState dec) tokenArrayStart)
           && negb (tokenState_eqb (tokState dec) tokenArrayComma)
        then tokenError dec c
        else (ADelim 93, None, tokenValueEnd (pop (advance dec)))
      else if c =? 123 then
        if negb (tokenValueAllowed dec) then tokenError dec c
        else (ADelim 123, None, push (advance dec) tokenObjectStart)
      else if c =? 125 then
        if negb (tokenState_eqb (tokState dec) tokenObjectStart)
           && negb (tokenState_eqb (tokState dec) tokenObjectComma)
        then tokenError dec c
        else (ADelim 125, None, tokenValueEnd (pop (advance dec)))
      else if c =? 58 then
        if negb (tokenState_eqb (tokState dec) tokenObjectColon)
        then tokenError dec c
        else continue (set_tokState (advance dec) tokenObjectValue)
      else if c =? 44 then
        if tokenState_eqb (tokState dec) tokenArrayComma
        then continue (set_tokState (advance dec) tokenArrayValue)
        else if tokenState_eqb (tokState dec) tokenObjectComma
        then continue (set_tokState (advance dec) tokenObjectKey)
        else tokenError dec c
      else if (c =? 34)
              && (tokenState_eqb (tokState dec) tokenObjectStart
                  || tokenState_eqb (tokState dec) tokenObjectKey)
      then
        let old := tokState dec in
        match Decode (set_tokState dec tokenTopValue) with
        | (_, Some e, dec) => (Nil, Some e, set_tokState dec old)
        | (x, None, dec) => (x, None, set_tokState dec tokenObjectColon)
        end
      else
        if negb (tokenValueAllowed dec) then tokenError dec c
        else
          match Decode dec with
          | (_, Some e, dec) => (Nil, Some e, dec)
          | (x, None, dec) => (x, None, dec)
          end
  end.

(** The loop, [fuel] rounds of it.  [continue] happens after a colon or a
    comma was consumed; the states reached that way accept neither, so the
    second round always returns and the fuel of [Token] never runs out
    (lemma [Token_loop_fuel]). *)
Fixpoint Token_loop (fuel : nat) (dec : Decoder) : any * option error * Decoder :=
  Token_body
    (fun d =>
       match fuel with
       | O => (Nil, Some (SyntaxError 0 (InputOffset d)), d)
       | S f => Token_loop f d
       end) dec.

(** [dec.Token()] *)
Definition Token (dec : Decoder) : any * option error * Decoder :=
  Token_loop 1 dec.

(** [dec.More()]; [peek] moves the offset over white space. *)
Definition More (dec : Decoder) : bool * Decoder :=
  match peek dec with
  | (inl c, dec) => (negb (c =? 93) && negb (c =? 125), dec)
  | (inr _, dec) => (false, dec)
  end.

End json.

(** ** The decoder *)

Record jsonDecoder := {
  decoder : json.Decoder;
  currentToken : any;       (* a json.Token is an any *)
  d_err : option error      (* the field err *)
}.

Definition set_decoder (d : jsonDecoder) (dec : json.Decoder) : jsonDecoder :=
  {| decoder := dec; currentToken := currentToken d; d_err := d_err d |}.

Definition set_currentToken (d : jsonDecoder) (t : any) : jsonDecoder :=
  {| decoder := decoder d; currentToken := t; d_err := d_err d |}.

Definition set_err (d : jsonDecoder) (e : option error) : jsonDecoder :=
  {| decoder := decoder d; currentToken := currentToken d; d_err := e |}.

(** [d.decoder.Token()], the decoder state stored back in [d]. *)
Definition nextToken (d : jsonDecoder) : any * option error * jsonDecoder :=
  let '(t, e, dec) := json.Token (decoder d) in (t, e, set_decoder d dec).

Definition isDelim (t : any) (c : Z) : bool :=
  match t with ADelim del => del =? c | _ => false end.

(** The four mutually recursive pieces of the decoder:
    - [JSONunmarshal_loop]: the [for] loop of [JSONunmarshal], [result]
      being the items appended so far;
    - [UnmarshalCustomJSON]: returns the item [*s] it fills, which stays
      the zero item on the early returns;
    - [asInterface];
    - [asInterface_array]: the [for d.decoder.More()] loop of
      [asInterface] and the token read after it, [ret] being the elements
      appended so far. *)
Fixpoint JSONunmarshal_loop (fuel : nat) (data : bytes) (d : jsonDecoder)
  (result : list JSONMapItem) {struct fuel}
  : outcome (list JSONMapItem * jsonDecoder) :=
  match fuel with
  | O => OutOfFuel
  | S fuel =>
      let '(t, e, d) := nextToken d in
      if isDelim t 125 then Ret (result, d)
      else if is_EOF e then Ret (result, d)
      else
        let d := set_currentToken d t in
        '(mi, d) <- UnmarshalCustomJSON fuel data d ;;
        JSONunmarshal_loop fuel data d (result ++ [mi])
  end

with UnmarshalCustomJSON (fuel : nat) (data : bytes) (d : jsonDecoder)
  {struct fuel} : outcome (JSONMapItem * jsonDecoder) :=
  match fuel with
  | O => OutOfFuel
  | S fuel =>
      let offset := json.InputOffset (decoder d) in
      match nth_error data offset with
      | None => Panic (IndexOutOfRange offset (List.length data))
      | Some b =>
          if b =? 58 then
            match currentToken d with
            | AString key =>
                let '(t, e, d) := nextToken d in
                match e with
                | Some _ => Ret (zeroItem, set_err d e)
                | None =>
                    let d := set_currentToken d t in
                    '(value, d) <- asInterface fuel data d ;;
                    Ret (MkItem key value, d)
                end
            | _ => Panic TypeAssertion
            end
          else Ret (zeroItem, d)
      end
  end

with asInterface (fuel : nat) (data : bytes) (d : jsonDecoder)
  {struct fuel} : outcome (any * jsonDecoder) :=
  match fuel with
  | O => OutOfFuel
  | S fuel =>
      match currentToken d with
      | ADelim n =>
          if n =? 123 then
            '(ret, d) <- JSONunmarshal_loop fuel data d [] ;;
            Ret (AMapSlice (Some ret), d)
          else if n =? 91 then asInterface_array fuel data d []
          else Ret (Nil, d)
      | AString n => Ret (AString n, d)
      | AInt64 n =>
          let strN := strconv.FormatInt n in
          if ContainsRune strN 46 then Ret (AFloat64 strN, d)
          else Ret (AInt64 (fst (strconv.ParseInt strN)), d)
      | n => Ret (n, d)
      end
  end

with asInterface_array (fuel : nat) (data : bytes) (d : jsonDecoder)
  (ret : list any) {struct fuel} : outcome (any * jsonDecoder) :=
  match fuel with
  | O => OutOfFuel
  | S fuel =>
      let '(more, dec) := json.More (decoder d) in
      let d := set_decoder d dec in
      if more then
        let '(t, e, d) := nextToken d in
        match e with
        | Some _ => Ret (Nil, set_err d e)
        | None =>
            let d := set_currentToken d t in
            '(x, d) <- asInterface fuel data d ;;
            asInterface_array fuel data d (ret ++ [x])
        end
      else
        let '(_, e, d) := nextToken d in
        match e with
        | Some _ => Ret (Nil, set_err d e)
        | None => Ret (ASlice ret, d)
        end
  end.

(** [func (s *JSONMapSlice) JSONunmarshal(data []byte, d *jsonDecoder)]:
    the new value of [*s]. *)
Definition JSONunmarshal (fuel : nat) (data : bytes) (d : jsonDecoder)
  : outcome (JSONMapSlice * jsonDecoder) :=
  '(result, d) <- JSONunmarshal_loop fuel data d [] ;;
  Ret (Some result, d).

(** [func (s *JSONMapSlice) UnmarshalJSON(data []byte) error]: the value
    of [*s] afterwards, and the error returned. *)
Definition UnmarshalJSON (fuel : nat) (s : JSONMapSlice) (data : bytes)
  : outcome (JSONMapSlice * option error) :=
  let d := {| decoder := json.NewDecoder data; currentToken := Nil;
              d_err := None |} in
  let '(t, e, d) := nextToken d in
  if is_EOF e then Ret (s, None)
  else
    match t with
    | ADelim delim =>
        if negb (delim =? 123)
        then Ret (s, Some (Errorf "expected '{' delimeter"))
        else
          '(s, d) <- JSONunmarshal fuel data d ;;
          Ret (s, d_err d)
    | _ => Ret (s, Some (Errorf "expected delimeter"))
    end.

(** ** The leaf writer

    Modelled from the spec: [WriteJSON], which the package defines outside
    this file.  It is the standard JSON writer: [null], [true] and [false]
    for nil and the booleans, decimal digits for an integer, a quoted and
    escaped string for a text, [[] + comma-joined elements + []] for a
    slice, the ordered encoding above for a nested [JSONMapSlice], and an
    error for a value of a kind it does not support.  A float64 is
    written as a decimal literal of that number; which digits Go chooses
    is not modelled. *)

Definition hexDigit (n : Z) : Z := if n <? 10 then 48 + n else 87 + n.

Definition escapeByte (b : Z) : bytes :=
  if b =? 34 then [92; 34]
  else if b =? 92 then [92; 92]
  else if b <? 32 then [92; 117; 48; 48; hexDigit (b / 16); hexDigit (b mod 16)]
  else [b].

Definition quoteJSON (s : bytes) : bytes := 34 :: flat_map escapeByte s ++ [34].

Section Elements.

Variable W : any -> outcome (bytes * option error).

(** The elements of a slice, [sep] before the first of them. *)
Fixpoint writeElements (l : list any) (sep : bytes) (acc : bytes)
  : outcome (bytes * option error) :=
  match l with
  | [] => Ret (acc ++ [93], None)
  | x :: r =>
      '(b, e) <- W x ;;
      match e with
      | Some _ => Ret ([], e)
      | None => writeElements r [44] (acc ++ sep ++ b)
      end
  end.

End Elements.

Fixpoint WriteJSON (v : any) : outcome (bytes * option error) :=
  match v with
  | Nil => Ret (bs "null", None)
  | ABool b => Ret (if b then bs "true" else bs "false", None)
  | AFloat64 lit => Ret (lit, None)
  | AInt64 n => Ret (strconv.FormatInt n, None)
  | AString s => Ret (quoteJSON s, None)
  | ADelim c => Ret (strconv.FormatInt c, None)
  | ASlice l => writeElements WriteJSON l [] [91]
  | AMapSlice s => MarshalJSON WriteJSON s
  | AOther => Ret ([], Some UnsupportedTypeError)
  end.

(** [encode] and [decode] of the spec. *)
Definition encode (s : JSONMapSlice) : outcome (bytes * option error) :=
  MarshalJSON WriteJSON s.

Definition decode (fuel : nat) (data : bytes) : outcome (JSONMapSlice * option error) :=
  UnmarshalJSON fuel None data.

(** ** Round trips: the values and what is compared

    The values for which the round trip is stated are those of the value
    model: nil, booleans, int64 integers, float64 numbers, texts of bytes,
    slices of such values, and [JSONMapSlice]s of such values, nil ones
    included, whose keys need no escape. *)

Definition isByte (b : Z) : bool := (0 <=? b) && (b <? 256).

(** The ASCII bytes from the space on, the quotation mark and the
    backslash excepted. *)
Definition plainByte (b : Z) : bool :=
  (32 <=? b) && (b <? 128) && negb (b =? 34) && negb (b =? 92).

Definition plainText (s : bytes) : bool := forallb plainByte s.

(** A key that needs no escape: valid UTF-8 without quotation mark,
    backslash and control byte.  It is the text in which the first loop
    of [unquoteBytes] finds nothing to rewrite. *)
Definition plainKey (k : bytes) : bool :=
  json.unquote_plain (S (List.length k)) k.

(** The scanner run over [body] from step [s], as [readValue] does it: the
    step reached, unless the value ends or an error comes before. *)
Fixpoint scanRun (s : json.scanStep) (body : bytes) : option json.scanStep :=
  match body with
  | [] => Some s
  | c :: r =>
      match json.step s c with
      | (_, json.scanEnd) | (_, json.scanError) => None
      | (s', _) => scanRun s' r
      end
  end.

(** The steps of the scanner in which a number may end. *)
Definition numberEnd (s : json.scanStep) : bool :=
  match s with
  | json.state0 | json.state1 | json.stateDot0 | json.stateE0 => true
  | _ => false
  end.

(** A number literal of JSON: it starts with a minus sign or a digit, and
    the scanner reads the whole of it as one number. *)
Definition numberLiteral (lit : bytes) : bool :=
  match lit with
  | c :: _ =>
      ((c =? 45) || json.isDigit c)
      && match scanRun json.stateBeginValue lit with
         | Some s => numberEnd s
         | None => false
         end
  | [] => false
  end.

(** A float64 is held as a number literal that stands for it: a literal
    in the range of float64. *)
Fixpoint legal (v : any) : bool :=
  match v with
  | Nil | ABool _ => true
  | AFloat64 lit => numberLiteral lit && negb (json.ParseFloat_overflows lit)
  | AInt64 n => (- 2 ^ 63 <=? n) && (n <? 2 ^ 63)
  | AString s => forallb isByte s
  | ASlice l => forallb legal l
  | AMapSlice (Some l) =>
      forallb (fun it => plainKey (Key it) && legal (Value it)) l
  | AMapSlice None => true
  | ADelim _ | AOther => false
  end.

Definition legalItems (l : list JSONMapItem) : bool :=
  legal (AMapSlice (Some l)).

(** The keys in their order and the number of entries, at every depth. *)
Unset Elimination Schemes.

Inductive shape :=
| Leaf
| Elements (l : list shape)
| Entries (l : list (bytes * shape)).

Set Elimination Schemes.

Fixpoint shapeOf (v : any) : shape :=
  match v with
  | ASlice l => Elements (map shapeOf l)
  | AMapSlice (Some l) =>
      Entries (map (fun it => (Key it, shapeOf (Value it))) l)
  | _ => Leaf
  end.

(** A comma before every part. *)
Definition commas (parts : list bytes) : bytes :=
  List.concat (map (cons 44) parts).

(** Parts joined by commas. *)
Definition renderSeq (parts : list bytes) : bytes :=
  match parts with
  | [] => []
  | p :: r => p ++ commas r
  end.

(** The bytes that the encoder writes for a value. *)
Fixpoint render (v : any) : bytes :=
  match v with
  | Nil => bs "null"
  | ABool b => if b then bs "true" else bs "false"
  | AFloat64 lit => lit
  | AInt64 n => strconv.FormatInt n
  | AString s => quoteJSON s
  | ADelim c => strconv.FormatInt c
  | ASlice l => 91 :: renderSeq (map render l) ++ [93]
  | AMapSlice None => bs "null"
  | AMapSlice (Some l) =>
      123 :: renderSeq
               (map (fun it => 34 :: Key it ++ 34 :: 58 :: render (Value it)) l)
          ++ [125]
  | AOther => []
  end.

Definition renderItem (it : JSONMapItem) : bytes :=
  34 :: Key it ++ 34 :: 58 :: render (Value it).

Definition shapeItem (it : JSONMapItem) : bytes * shape :=
  (Key it, shapeOf (Value it)).

(** The value that the decoder builds from the encoding of a value: an
    integer comes back as the float64 of its digits, a text as the text
    that [encoding/json] reads from its escaped form, a nested nil
    [JSONMapSlice], written [null], as nil. *)
Fixpoint decoded (v : any) : any :=
  match v with
  | AInt64 n => AFloat64 (strconv.FormatInt n)
  | AString s => fst (json.literalInterface (quoteJSON s))
  | ASlice l => ASlice (map decoded l)
  | AMapSlice (Some l) =>
      AMapSlice (Some (map (fun it => MkItem (Key it) (decoded (Value it))) l))
  | AMapSlice None => Nil
  | _ => v
  end.

Definition decodedItem (it : JSONMapItem) : JSONMapItem :=
  MkItem (Key it) (decoded (Value it)).

(** Fuel that is enough to decode the encoding of a value. *)
Fixpoint need (v : any) : nat :=
  match v with
  | ASlice l => S (S (list_sum (map (fun x => S (need x)) l)))
  | AMapSlice (Some l) =>
      S (S (list_sum (map (fun it => S (S (need (Value it)))) l)))
  | _ => 1%nat
  end.

(** The token stack is empty exactly at the top level: the state is
    [tokenTopValue] under no open array or object, and another state
    inside one. *)
Fixpoint wfStack (st : json.tokenState) (stk : list json.tokenState) : Prop :=
  match stk with
  | [] => st = json.tokenTopValue
  | s0 :: stk' => st <> json.tokenTopValue /\ wfStack s0 stk'
  end.

Definition wfDecoder (dec : json.Decoder) : Prop :=
  wfStack (json.tokState dec) (json.tokenStack dec).

(** A decoder of [encoding/json] without error. *)
Definition mkDec (data : bytes) (pos : nat) (st : json.tokenState)
  (stk : list json.tokenState) : json.Decoder :=
  {| json.buf := data; json.scanp := pos; json.derr := None;
     json.tokState := st; json.tokenStack := stk |}.

Definition valueState (st : json.tokenState) : bool :=
  match st with
  | json.tokenArrayStart | json.tokenArrayValue | json.tokenObjectValue => true
  | _ => false
  end.

Definition valueEnd (st : json.tokenState) : json.tokenState :=
  match st with
  | json.tokenArrayStart | json.tokenArrayValue => json.tokenArrayComma
  | json.tokenObjectValue => json.tokenObjectComma
  | s => s
  end.

(** The bytes after a value inside an object or an array start with a
    comma or a closing delimiter, unless the input ends there. *)
Definition terminated (rest : bytes) : bool :=
  match rest with
  | c :: _ => (c =? 44) || (c =? 125) || (c =? 93)
  | [] => true
  end.

(** What may follow the last item of an object: the closing brace, or the
    end of the input. *)
Definition closes (tail : bytes) : Prop :=
  tail = [] \/ exists rest, tail = 125 :: rest.

(** A byte that starts a literal: not white space, not one of the six
    structural characters. *)
Definition literalStart (c : Z) : bool :=
  negb (json.isSpace c) && negb (c =? 91) && negb (c =? 93) && negb (c =? 123)
  && negb (c =? 125) && negb (c =? 58) && negb (c =? 44).

(** Decimal digits, and their value. *)
Definition digitsVal (ds : bytes) : Z :=
  fold_left (fun a c => a * 10 + (c - 48)) ds 0.

(** What the decoder does on the encoding of [v], read at offset [pos] of
    [data] in a state where a value is allowed: [Token] yields a token
    without error, and [asInterface] turns it into [decoded v], the
    decoder being left after the encoding. *)
Definition decodes (v : any) : Prop :=
  forall n fuel data pos st stk rest d,
    skipn pos data = render v ++ rest ->
    terminated rest = true ->
    valueState st = true ->
    (need v <= fuel)%nat ->
    exists t dec1 x d2,
      json.Token_loop n (mkDec data pos st stk) = (t, None, dec1) /\
      asInterface fuel data (set_currentToken (set_decoder d dec1) t) = Ret (x, d2) /\
      x = decoded v /\
      decoder d2 = mkDec data (pos + List.length (render v)) (valueEnd st) stk /\
      d_err d2 = d_err d.

(** ** What the decoder can return

    The tokens of [encoding/json], and the values that [asInterface]
    builds from them: nil, booleans, float64 numbers, texts, slices of such
    values and non-nil [JSONMapSlice]s of such values. *)

Definition isToken (t : any) : bool :=
  match t with
  | Nil | ABool _ | AFloat64 _ | AString _ | ADelim _ => true
  | _ => false
  end.

Fixpoint decoderValue (v : any) : bool :=
  match v with
  | Nil | ABool _ | AFloat64 _ | AString _ => true
  | ASlice l => forallb decoderValue l
  | AMapSlice (Some l) => forallb (fun it => decoderValue (Value it)) l
  | _ => false
  end.

Definition decoderItem (it : JSONMapItem) : bool := decoderValue (Value it).

(** * Properties *)

(** ** Unfolding equations *)

Lemma JSONunmarshal_loop_S fuel data d result :
  JSONunmarshal_loop (S fuel) data d result =
  let '(t, e, d) := nextToken d in
  if isDelim t 125 then Ret (result, d)
  else if is_EOF e then Ret (result, d)
  else
    let d := set_currentToken d t in
    '(mi, d) <- UnmarshalCustomJSON fuel data d ;;
    JSONunmarshal_loop fuel data d (result ++ [mi]).
Proof. reflexivity. Qed.

Lemma UnmarshalCustomJSON_S fuel data d :
  UnmarshalCustomJSON (S fuel) data d =
  match nth_error data (json.InputOffset (decoder d)) with
  | None => Panic (IndexOutOfRange (json.InputOffset (decoder d)) (List.length data))
  | Some b =>
      if b =? 58 then
        match currentToken d with
        | AString key =>
            let '(t, e, d) := nextToken d in
            match e with
            | Some _ => Ret (zeroItem, set_err d e)
            | None =>
                let d := set_currentToken d t in
                '(value, d) <- asInterface fuel data d ;;
                Ret (MkItem key value, d)
            end
        | _ => Panic TypeAssertion
        end
      else Ret (zeroItem, d)
  end.
Proof. reflexivity. Qed.

Lemma asInterface_S fuel data d :
  asInterface (S fuel) data d =
  match currentToken d with
  | ADelim n =>
      if n =? 123 then
        '(ret, d) <- JSONunmarshal_loop fuel data d [] ;;
        Ret (AMapSlice (Some ret), d)
      else if n =? 91 then asInterface_array fuel data d []
      else Ret (Nil, d)
  | AString n => Ret (AString n, d)
  | AInt64 n =>
      let strN := strconv.FormatInt n in
      if ContainsRune strN 46 then Ret (AFloat64 strN, d)
      else Ret (AInt64 (fst (strconv.ParseInt strN)), d)
  | n => Ret (n, d)
  end.
Proof. reflexivity. Qed.

Lemma asInterface_array_S fuel data d ret :
  asInterface_array (S fuel) data d ret =
  let '(more, dec) := json.More (decoder d) in
  let d := set_decoder d dec in
  if more then
    let '(t, e, d) := nextToken d in
    match e with
    | Some _ => Ret (Nil, set_err d e)
    | None =>
        let d := set_currentToken d t in
        '(x, d) <- asInterface fuel data d ;;
        asInterface_array fuel data d (ret ++ [x])
    end
  else
    let '(_, e, d) := nextToken d in
    match e with
    | Some _ => Ret (Nil, set_err d e)
    | None => Ret (ASlice ret, d)
    end.
Proof. reflexivity. Qed.

(** ** The encoder *)

Lemma appendString_buffer jb k :
  buffer (appendString jb k) = buffer jb ++ [34] ++ k ++ [34].
Proof. unfold appendString. simpl. now rewrite <- !app_assoc. Qed.

(** C5: the nil [JSONMapSlice] encodes as the four bytes [null], the empty
    one as [{}], whatever the leaf writer, and neither reports an error. *)
Theorem C5_null_sentinel_and_empty_object :
  forall W,
    MarshalJSON W None = Ret (bs "null", None) /\
    bs "null" = [110; 117; 108; 108] /\
    MarshalJSON W (Some []) = Ret (bs "{}", None) /\
    bs "{}" = [123; 125].
Proof.
  intros W. repeat split.
Qed.

(** ** The first token *)

(** C6, as the code has it: on an empty input [UnmarshalJSON] returns no
    error and does not assign the receiver; a receiver that was the zero
    value stays the nil slice, which has no entries and is the null
    sentinel of the encoder. *)
Theorem C6_empty_input_leaves_receiver :
  forall fuel s,
    UnmarshalJSON fuel s [] = Ret (s, None) /\
    len None = 0%nat /\
    encode None = Ret (bs "null", None).
Proof. intros fuel s. repeat split. Qed.

(** C6 as stated fails: decoding the empty input into a fresh receiver
    gives the nil slice, not the empty object, and it encodes as [null]. *)
Lemma C6_counterexample :
  decode 1 [] = Ret (None, None) /\
  decode 1 [] <> Ret (Some [], None) /\
  encode None <> encode (Some []).
Proof. repeat split; discriminate. Qed.




(** ** Tokens *)

(** A round of [Token] that starts after a [continue] returns: it does
    not use its own [continue]. *)
Lemma Token_body_settled k1 k2 d :
  json.tokState d = json.tokenObjectValue \/
  json.tokState d = json.tokenArrayValue \/
  json.tokState d = json.tokenObjectKey ->
  json.Token_body k1 d = json.Token_body k2 d.
Proof.
  intros Hs. unfold json.Token_body, json.peek.
  destruct (json.skipSpace _ _) as [[c i]|]; [|reflexivity].
  assert (Hst : json.tokState (json.set_scanp d i) = json.tokState d) by reflexivity.
  destruct Hs as [Hs|[Hs|Hs]]; rewrite Hst, Hs; cbn;
    repeat (match goal with |- context [if ?b then _ else _] => destruct b end;
            try reflexivity).
Qed.

Lemma Token_body_continue k1 k2 dec :
  (forall d, json.tokState d = json.tokenObjectValue \/
             json.tokState d = json.tokenArrayValue \/
             json.tokState d = json.tokenObjectKey -> k1 d = k2 d) ->
  json.Token_body k1 dec = json.Token_body k2 dec.
Proof.
  intros Hk. unfold json.Token_body.
  destruct (json.peek dec) as [[c|e] d]; [|reflexivity].
  repeat (match goal with |- context [if ?b then _ else _] => destruct b end;
          try reflexivity);
    apply Hk; cbn; auto.
Qed.

(** The [continue] of [Token] is taken at most once in a row: more fuel
    does not change the token. *)
Lemma Token_loop_fuel n dec : json.Token_loop (1 + n) dec = json.Token dec.
Proof.
  unfold json.Token. cbn [json.Token_loop Nat.add].
  apply Token_body_continue. intros d Hd.
  destruct n; cbn [json.Token_loop]; apply Token_body_settled; assumption.
Qed.

(** *** The token stack

    [Token] restores the state from the top of the stack when it closes an
    array or an object.  The stack is not empty there: a decoder made by
    [NewDecoder] keeps [wfDecoder] through every call of [Token] and of
    [More], and the states in which a closing delimiter is accepted are
    not the top-level state. *)

Lemma wfStack_inside st stk :
  wfStack st stk -> st <> json.tokenTopValue -> stk <> [].
Proof. destruct stk; cbn; [congruence|discriminate]. Qed.

Lemma wfDecoder_NewDecoder data : wfDecoder (json.NewDecoder data).
Proof. reflexivity. Qed.

Lemma wfStack_top_iff st stk st' :
  wfStack st stk ->
  (st' = json.tokenTopValue <-> st = json.tokenTopValue) ->
  wfStack st' stk.
Proof.
  destruct stk as [|s0 stk]; cbn.
  - intros -> H. now apply H.
  - intros [H1 H2] H. split; [|exact H2]. intros E. apply H1. now apply H.
Qed.

Lemma peek_state dec :
  json.tokState (snd (json.peek dec)) = json.tokState dec /\
  json.tokenStack (snd (json.peek dec)) = json.tokenStack dec.
Proof.
  unfold json.peek. destruct (json.skipSpace _ _) as [[c i]|]; split; reflexivity.
Qed.

Lemma tokenPrepareForDecode_state dec :
  json.tokenStack (snd (json.tokenPrepareForDecode dec)) = json.tokenStack dec /\
  (json.tokState (snd (json.tokenPrepareForDecode dec)) = json.tokenTopValue
   <-> json.tokState dec = json.tokenTopValue).
Proof.
  unfold json.tokenPrepareForDecode.
  destruct (json.tokState dec) eqn:E; cbn [snd]; try (split; [reflexivity|now rewrite E]);
    pose proof (peek_state dec) as [Hs Hk];
    destruct (json.peek dec) as [[c|e] d]; cbn [snd] in *;
    try destruct (negb _); cbn [snd json.tokenStack json.tokState json.set_tokState
                                 json.set_scanp];
    (split; [exact Hk|]); rewrite ?Hs, ?E; split; discriminate.
Qed.

Lemma tokenValueEnd_state dec :
  json.tokenStack (json.tokenValueEnd dec) = json.tokenStack dec /\
  (json.tokState (json.tokenValueEnd dec) = json.tokenTopValue
   <-> json.tokState dec = json.tokenTopValue).
Proof.
  unfold json.tokenValueEnd.
  destruct (json.tokState dec) eqn:E; cbn; rewrite ?E; split;
    try reflexivity; split; congruence.
Qed.

Lemma Decode_state dec :
  json.tokenStack (snd (json.Decode dec)) = json.tokenStack dec /\
  (json.tokState (snd (json.Decode dec)) = json.tokenTopValue
   <-> json.tokState dec = json.tokenTopValue).
Proof.
  unfold json.Decode.
  destruct (json.derr dec); [split; reflexivity|].
  pose proof (tokenPrepareForDecode_state dec) as [Hk Hs].
  destruct (json.tokenPrepareForDecode dec) as [[e|] d]; cbn [snd] in *;
    [split; assumption|].
  destruct (negb (json.tokenValueAllowed d)); [split; assumption|].
  destruct (json.readValue d) as [n|e]; [|split; assumption].
  destruct (json.literalInterface _) as [x e]. cbn [snd].
  pose proof (tokenValueEnd_state (json.set_scanp d (json.scanp d + n))) as [Hk' Hs'].
  rewrite Hk', Hs'. split; assumption.
Qed.

Lemma Token_body_wf k dec :
  (forall d, wfDecoder d -> wfDecoder (snd (k d))) ->
  wfDecoder dec -> wfDecoder (snd (json.Token_body k dec)).
Proof.
  intros Hk Hwf. unfold json.Token_body.
  pose proof (peek_state dec) as [Hs Hst].
  destruct (json.peek dec) as [[c|e] d]; cbn [snd] in *;
    [|unfold wfDecoder in *; now rewrite Hs, Hst].
  assert (Hd : wfDecoder d) by (unfold wfDecoder in *; now rewrite Hs, Hst).
  clear Hs Hst Hwf dec. unfold wfDecoder in Hd.
  assert (Hpop : forall s,
             json.tokState d = s -> s <> json.tokenTopValue ->
             wfDecoder (json.tokenValueEnd
                          (json.pop (json.set_scanp d (S (json.scanp d)))))).
  { intros s Hs Hne. unfold wfDecoder.
    pose proof (tokenValueEnd_state
                  (json.pop (json.set_scanp d (S (json.scanp d))))) as [Hk' Hs'].
    rewrite Hk'. cbn [json.pop json.set_scanp json.tokenStack json.tokState] in *.
    destruct (json.tokenStack d) as [|s0 stk]; cbn in Hd; [congruence|].
    destruct Hd as [_ Hd]. cbn [hd tl] in *.
    apply (wfStack_top_iff s0 stk _ Hd Hs'). }
  assert (Hpush : forall s,
             s <> json.tokenTopValue ->
             wfDecoder (json.push (json.set_scanp d (S (json.scanp d))) s)).
  { intros s Hne. unfold wfDecoder. cbn. split; assumption. }
  assert (Hset : forall s,
             json.tokState d <> json.tokenTopValue -> s <> json.tokenTopValue ->
             wfDecoder (json.set_tokState (json.set_scanp d (S (json.scanp d))) s)).
  { intros s Hne Hs. unfold wfDecoder. cbn.
    apply (wfStack_top_iff _ _ s Hd). split; congruence. }
  assert (Hdec : forall d0,
             json.tokenStack d0 = json.tokenStack d ->
             (json.tokState d0 = json.tokenTopValue
              <-> json.tokState d = json.tokenTopValue) ->
             wfDecoder (snd (json.Decode d0))).
  { intros d0 Hk0 Hs0. unfold wfDecoder.
    pose proof (Decode_state d0) as [Hk' Hs']. rewrite Hk', Hk0.
    apply (wfStack_top_iff _ _ _ Hd). now rewrite Hs', Hs0. }
  unfold json.tokenError.
  repeat match goal with
         | |- context [if ?b then _ else _] => destruct b eqn:?
         end; cbn [snd]; try exact Hd;
    try (apply Hpush; discriminate);
    try (apply Hk);
    try (apply (Hset _); [|discriminate]);
    try (eapply Hpop; [reflexivity|]);
    try (destruct (json.tokState d); discriminate).
  - assert (Hne : json.tokState d <> json.tokenTopValue).
    { intros E. rewrite E in *. cbn in *. now rewrite andb_false_r in *. }
    pose proof (Decode_state (json.set_tokState d json.tokenTopValue)) as [Hk' _].
    destruct (json.Decode _) as [[x [e|]] d1]; cbn [snd] in *; unfold wfDecoder;
      cbn [json.set_tokState json.tokState json.tokenStack] in *; rewrite Hk';
      apply (wfStack_top_iff _ _ _ Hd); split; intros E;
      congruence || discriminate.
  - pose proof (Hdec d eq_refl (iff_refl _)) as H.
    destruct (json.Decode d) as [[x [e|]] d1]; exact H.
Qed.

Lemma Token_wf dec : wfDecoder dec -> wfDecoder (snd (json.Token dec)).
Proof.
  intros Hwf. unfold json.Token. cbn [json.Token_loop].
  apply Token_body_wf; [|exact Hwf].
  intros d Hd. apply Token_body_wf; [|exact Hd]. intros d' Hd'. exact Hd'.
Qed.

Lemma More_wf dec : wfDecoder dec -> wfDecoder (snd (json.More dec)).
Proof.
  intros Hwf. unfold json.More. pose proof (peek_state dec) as [Hs Hk].
  destruct (json.peek dec) as [[c|e] d]; cbn [snd] in *;
    unfold wfDecoder in *; now rewrite Hs, Hk.
Qed.

(** No token is an int64: [Token] yields delimiters, booleans, float64
    numbers, strings and nil. *)
Lemma literalInterface_not_int64 item n : fst (json.literalInterface item) <> AInt64 n.
Proof.
  unfold json.literalInterface. destruct item as [|c r]; [discriminate|].
  repeat (match goal with
          | |- context [if ?b then _ else _] => destruct b
          | |- context [match ?o with Some _ => _ | None => _ end] => destruct o
          end; try discriminate).
Qed.

Lemma Decode_not_int64 dec n : fst (fst (json.Decode dec)) <> AInt64 n.
Proof.
  unfold json.Decode.
  destruct (json.derr dec); [discriminate|].
  destruct (json.tokenPrepareForDecode dec) as [[e|] d']; [discriminate|].
  destruct (negb (json.tokenValueAllowed d')); [discriminate|].
  destruct (json.readValue d'); [|discriminate].
  pose proof (literalInterface_not_int64
                (firstn n0 (skipn (json.scanp d') (json.buf d'))) n) as H.
  destruct (json.literalInterface _) as [x e]. exact H.
Qed.

Lemma Token_body_not_int64 k dec n :
  (forall d, fst (fst (k d)) <> AInt64 n) ->
  fst (fst (json.Token_body k dec)) <> AInt64 n.
Proof.
  intros Hk. unfold json.Token_body.
  destruct (json.peek dec) as [[c|e] d']; try discriminate;
    repeat (match goal with |- context [if ?b then _ else _] => destruct b end;
            try discriminate; try apply Hk);
    match goal with
    | |- context [json.Decode ?d] =>
        pose proof (Decode_not_int64 d n) as H;
        destruct (json.Decode d) as [[x [e|]] d'']; [discriminate|exact H]
    end.
Qed.

Lemma Token_loop_not_int64 fuel dec n :
  fst (fst (json.Token_loop fuel dec)) <> AInt64 n.
Proof.
  revert dec. induction fuel as [|fuel IH]; intros dec;
    cbn [json.Token_loop]; apply Token_body_not_int64; [discriminate|exact IH].
Qed.

Lemma Token_not_int64 dec n : fst (fst (json.Token dec)) <> AInt64 n.
Proof. apply Token_loop_not_int64. Qed.

(** ** The loop of [JSONunmarshal] *)

(** A token error other than [io.EOF] does not leave the loop.  When
    [Token] fails without moving, and the byte at the offset is not a
    colon, every round appends a zero item and asks for the same token
    again: no amount of fuel ends the loop. *)
Lemma JSONunmarshal_loop_spins fuel data d result e b :
  json.Token (decoder d) = (Nil, Some e, decoder d) ->
  is_EOF (Some e) = false ->
  nth_error data (json.InputOffset (decoder d)) = Some b ->
  (b =? 58) = false ->
  JSONunmarshal_loop fuel data d result = OutOfFuel.
Proof.
  revert d result.
  induction fuel as [|fuel IH]; intros d result HT He Hb Hc; [reflexivity|].
  rewrite JSONunmarshal_loop_S. unfold nextToken. rewrite HT.
  cbn [isDelim]. rewrite He.
  destruct fuel as [|fuel']; [reflexivity|].
  rewrite UnmarshalCustomJSON_S.
  cbn [set_currentToken set_decoder decoder]. rewrite Hb, Hc.
  cbn [bind]. apply IH; assumption.
Qed.

(** The same at the top: [UnmarshalJSON] does not return when the loop of
    its object level spins from the state [d] reached after [steps] rounds
    of fuel. *)
Lemma UnmarshalJSON_never_returns_from data s d0 :
  nextToken {| decoder := json.NewDecoder data; currentToken := Nil;
               d_err := None |} = (ADelim 123, None, d0) ->
  (forall fuel, JSONunmarshal_loop fuel data d0 [] = OutOfFuel) ->
  forall fuel, UnmarshalJSON fuel s data = OutOfFuel.
Proof.
  intros H0 Hloop fuel. unfold UnmarshalJSON. rewrite H0.
  cbn [is_EOF Z.eqb negb]. unfold JSONunmarshal. now rewrite Hloop.
Qed.

(** Evaluation of the decoder on a concrete input, one call at a time. *)
Ltac eval_closed t :=
  let r := eval vm_compute in t in
  replace t with r by (vm_compute; reflexivity).

Ltac run_decoder :=
  repeat (first
    [ match goal with
      | |- context [nextToken ?d] => eval_closed (nextToken d)
      | |- context [json.More ?d] => eval_closed (json.More d)
      | |- context [nth_error ?l ?n] => eval_closed (nth_error l n)
      end
    | progress cbv beta iota zeta
    | progress cbn [isDelim is_EOF Z.eqb Pos.eqb negb bind currentToken
                    set_currentToken set_decoder set_err decoder d_err] ]).

(** C3, at the input [{"a":x}]: the byte [x] is a syntax error at the value
    of the key [a].  [UnmarshalCustomJSON] stores it in [d.err] and
    returns, but the loop of [JSONunmarshal] goes on; [Token] reports the
    same error at every further round, so [UnmarshalJSON] never returns
    the error: no fuel is enough. *)
Theorem C3_syntax_error_never_returned :
  forall fuel s, UnmarshalJSON fuel s (js "{'a':x}") = OutOfFuel.
Proof.
  intros fuel s. revert fuel.
  eapply UnmarshalJSON_never_returns_from; [vm_compute; reflexivity|].
  intros fuel.
  destruct fuel as [|fuel]; [reflexivity|].
  rewrite JSONunmarshal_loop_S. run_decoder.
  destruct fuel as [|fuel]; [reflexivity|].
  rewrite UnmarshalCustomJSON_S. run_decoder.
  eapply JSONunmarshal_loop_spins; vm_compute; reflexivity.
Qed.

(** C10, at three inputs.  After the key of [{"a"] the offset is the length
    of the buffer, and [data[offset]] is out of range.  At [{:] the token
    is nil (a syntax error) and the byte at the offset is a colon, so the
    assertion [d.currentToken.(string)] fails.  At [{,] the syntax error
    is neither the delimiter nor [io.EOF], and the loop never ends. *)
Theorem C10_decode_is_not_total :
  decode 10 (js "{'a'") = Panic (IndexOutOfRange 4 4) /\
  decode 10 (js "{:") = Panic TypeAssertion /\
  (forall fuel, decode fuel (js "{,") = OutOfFuel).
Proof.
  split; [reflexivity|]. split; [reflexivity|].
  unfold decode.
  eapply UnmarshalJSON_never_returns_from; [vm_compute; reflexivity|].
  intros fuel. eapply JSONunmarshal_loop_spins; vm_compute; reflexivity.
Qed.

(** C8, at the input [{"a" :1}]: the key is followed by a space, so
    [UnmarshalCustomJSON] returns early; [JSONunmarshal] appends the item
    all the same.  The number is then taken for a key, is not followed by
    a colon either, and a second zero item is appended. *)
Theorem C8_skipped_pair_is_appended :
  decode 10 (js "{'a' :1}") = Ret (Some [zeroItem; zeroItem], None).
Proof. reflexivity. Qed.

(** C2, at the input [{"a":42,"b":42.0}]: both numbers are float64 tokens,
    and [asInterface] returns them through its default case; the int64
    case is not reached. *)
Theorem C2_integer_literal_decodes_as_float :
  decode 10 (js "{'a':42,'b':42.0}") =
  Ret (Some [MkItem (bs "a") (AFloat64 (bs "42"));
             MkItem (bs "b") (AFloat64 (bs "42.0"))], None).
Proof. reflexivity. Qed.

(** C7, at the key made of [a], a quotation mark and [b]: [appendString] writes the bytes of the key
    between two quotation marks and escapes nothing, where the leaf writer
    escapes the same text.  The output is not JSON, and the decoder never
    returns on it. *)
Theorem C7_key_is_not_escaped :
  encode (Some [MkItem (js "a'b") (AString (js "a'b"))]) =
    Ret (js "{'a'b':'a\'b'}", None) /\
  quoteJSON (js "a'b") = js "'a\'b'" /\
  (forall fuel, decode fuel (js "{'a'b':'a\'b'}") = OutOfFuel).
Proof.
  split; [reflexivity|]. split; [reflexivity|].
  unfold decode.
  eapply UnmarshalJSON_never_returns_from; [vm_compute; reflexivity|].
  intros fuel.
  destruct fuel as [|fuel]; [reflexivity|].
  rewrite JSONunmarshal_loop_S. run_decoder.
  destruct fuel as [|fuel]; [reflexivity|].
  rewrite UnmarshalCustomJSON_S. run_decoder.
  eapply JSONunmarshal_loop_spins; vm_compute; reflexivity.
Qed.

(** ** Induction over values *)

Lemma any_induction (P : any -> Prop) :
  P Nil ->
  (forall b, P (ABool b)) ->
  (forall lit, P (AFloat64 lit)) ->
  (forall n, P (AInt64 n)) ->
  (forall s, P (AString s)) ->
  (forall c, P (ADelim c)) ->
  (forall l, Forall P l -> P (ASlice l)) ->
  P (AMapSlice None) ->
  (forall l, Forall (fun it => P (Value it)) l -> P (AMapSlice (Some l))) ->
  P AOther ->
  forall v, P v.
Proof.
  intros HNil HBool HFloat HInt HStr HDelim HSlice HNone HSome HOther.
  fix IH 1. intros v. destruct v as [|b|lit|n|s|c|l|[l|]|].
  - exact HNil.
  - apply HBool.
  - apply HFloat.
  - apply HInt.
  - apply HStr.
  - apply HDelim.
  - apply HSlice. induction l as [|x l IHl]; constructor; [apply IH|exact IHl].
  - apply HSome. induction l as [|[k x] l IHl]; constructor; [apply IH|exact IHl].
  - exact HNone.
  - exact HOther.
Qed.

(** ** strconv: digits *)

Lemma digitsVal_app ds c : digitsVal (ds ++ [c]) = digitsVal ds * 10 + (c - 48).
Proof. unfold digitsVal. now rewrite fold_left_app. Qed.

(** [formatBits] writes the decimal digits of [u] in front of [acc]: at
    least one digit, no leading zero unless [u] is zero. *)
Lemma formatBits_digits fuel u acc :
  (0 < fuel)%nat ->
  0 <= u < 10 ^ Z.of_nat fuel ->
  exists d ds,
    strconv.formatBits fuel u acc = d :: ds ++ acc /\
    forallb strconv.isDigit (d :: ds) = true /\
    digitsVal (d :: ds) = u /\
    (0 < u -> 49 <= d) /\
    (u = 0 -> d = 48 /\ ds = []).
Proof.
  revert u acc. induction fuel as [|fuel IH]; intros u acc Hf Hu.
  - lia.
  - cbn [strconv.formatBits]. destruct (u <? 10) eqn:Hlt.
    + apply Z.ltb_lt in Hlt. rewrite Z.mod_small by lia.
      exists (48 + u), []. split; [reflexivity|]. split; [|split; [|split]].
      * cbn [forallb]. unfold strconv.isDigit.
        replace (48 <=? 48 + u) with true by (symmetry; apply Z.leb_le; lia).
        replace (48 + u <=? 57) with true by (symmetry; apply Z.leb_le; lia).
        reflexivity.
      * unfold digitsVal. cbn [fold_left]. lia.
      * lia.
      * intros ->. split; reflexivity.
    + apply Z.ltb_ge in Hlt.
      assert (Hdiv : 0 <= u / 10 < 10 ^ Z.of_nat fuel).
      { split; [apply Z.div_pos; lia|].
        apply Z.div_lt_upper_bound; [lia|].
        rewrite Nat2Z.inj_succ, Z.pow_succ_r in Hu by lia. lia. }
      assert (Hf' : (0 < fuel)%nat).
      { destruct fuel; [|lia]. change (10 ^ Z.of_nat 0) with 1 in Hdiv.
        assert (u / 10 = 0) by lia.
        pose proof (Z.div_mod u 10 ltac:(lia)).
        pose proof (Z.mod_pos_bound u 10 ltac:(lia)). lia. }
      destruct (IH (u / 10) ((48 + u mod 10) :: acc) Hf' Hdiv)
        as (d & ds & Heq & Hdig & Hval & Hpos & _).
      exists d, (ds ++ [48 + u mod 10]).
      pose proof (Z.mod_pos_bound u 10 ltac:(lia)) as Hmod.
      split; [|split; [|split; [|split]]].
      * rewrite Heq. rewrite <- app_assoc. reflexivity.
      * change (d :: ds ++ [48 + u mod 10]) with ((d :: ds) ++ [48 + u mod 10]).
        rewrite forallb_app, Hdig. cbn [forallb andb]. unfold strconv.isDigit.
        replace (48 <=? 48 + u mod 10) with true by (symmetry; apply Z.leb_le; lia).
        replace (48 + u mod 10 <=? 57) with true by (symmetry; apply Z.leb_le; lia).
        reflexivity.
      * change (d :: ds ++ [48 + u mod 10]) with ((d :: ds) ++ [48 + u mod 10]).
        rewrite digitsVal_app, Hval.
        pose proof (Z.div_mod u 10 ltac:(lia)). lia.
      * intros _. apply Hpos. apply Z.div_str_pos. lia.
      * lia.
Qed.

(** The text of an int64: an optional minus sign and the digits of the
    magnitude. *)
Lemma FormatInt_digits n :
  - 2 ^ 63 <= n < 2 ^ 63 ->
  exists d ds,
    strconv.FormatInt n = (if n <? 0 then [45] else []) ++ d :: ds /\
    forallb strconv.isDigit (d :: ds) = true /\
    digitsVal (d :: ds) = Z.abs n /\
    (n <> 0 -> 49 <= d) /\
    (n = 0 -> d = 48 /\ ds = []).
Proof.
  intros Hn. unfold strconv.FormatInt.
  assert (Hb : 0 <= Z.abs n < 10 ^ Z.of_nat 20).
  { change (10 ^ Z.of_nat 20) with 100000000000000000000.
    change (2 ^ 63) with 9223372036854775808 in Hn. lia. }
  destruct (formatBits_digits 20 (Z.abs n) [] ltac:(lia) Hb)
    as (d & ds & Heq & Hdig & Hval & Hpos & Hz).
  exists d, ds. rewrite app_nil_r in Heq.
  destruct (n <? 0) eqn:Hneg.
  - apply Z.ltb_lt in Hneg. replace (- n) with (Z.abs n) by lia.
    rewrite Heq. split; [reflexivity|]. split; [assumption|].
    split; [assumption|]. split; [intros; apply Hpos; lia|lia].
  - apply Z.ltb_ge in Hneg. replace n with (Z.abs n) at 1 by lia.
    rewrite Heq. split; [reflexivity|]. split; [assumption|].
    split; [assumption|]. split; [intros; apply Hpos; lia|].
    intros ->. apply Hz. reflexivity.
Qed.

(** ** The scanner on encoded literals *)

Lemma scanRun_app s a b :
  scanRun s (a ++ b) =
  match scanRun s a with Some s' => scanRun s' b | None => None end.
Proof.
  revert s. induction a as [|c a IH]; intros s; [reflexivity|].
  cbn [app scanRun]. destruct (json.step s c) as [s' []]; auto.
Qed.

Lemma scanRun_cons s c r s' :
  json.step s c = (s', json.scanContinue) ->
  scanRun s (c :: r) = scanRun s' r.
Proof. intros H. cbn [scanRun]. now rewrite H. Qed.

Lemma readValue_scan_run s s' body rest n off :
  scanRun s body = Some s' ->
  json.readValue_scan s (body ++ rest) n off =
  json.readValue_scan s' rest (n + List.length body) (off + List.length body).
Proof.
  revert s n off. induction body as [|c body IH]; intros s n off H.
  - cbn in *. inversion H. now rewrite !Nat.add_0_r.
  - cbn [app scanRun json.readValue_scan List.length] in *.
    destruct (json.step s c) as [s1 []]; try discriminate;
      rewrite (IH _ _ _ H); f_equal; lia.
Qed.

(** After a literal is complete the scanner ends the value at the next
    byte, or at the end of the input. *)
Lemma readValue_scan_end rest n off :
  json.readValue_scan json.stateEndValue rest n off = inl n.
Proof. destruct rest; reflexivity. Qed.

(** After the digits of an integer it ends the value at a comma or a
    closing delimiter, and at the end of the input. *)
Lemma readValue_scan_number_end s rest n off :
  s = json.state0 \/ s = json.state1 ->
  terminated rest = true ->
  json.readValue_scan s rest n off = inl n.
Proof.
  intros Hs Hr.
  destruct rest as [|c rest]; [destruct Hs as [-> | ->]; reflexivity|].
  cbn [terminated] in Hr.
  assert (Hc : c = 44 \/ c = 125 \/ c = 93).
  { apply orb_true_iff in Hr. destruct Hr as [Hr|Hr].
    - apply orb_true_iff in Hr. destruct Hr as [Hr|Hr];
        apply Z.eqb_eq in Hr; auto.
    - apply Z.eqb_eq in Hr; auto. }
  destruct Hs as [-> | ->]; destruct Hc as [-> | [-> | ->]]; reflexivity.
Qed.

(** After a number it ends the value at a comma or a closing delimiter,
    and at the end of the input. *)
Lemma readValue_scan_numberEnd s rest n off :
  numberEnd s = true ->
  terminated rest = true ->
  json.readValue_scan s rest n off = inl n.
Proof.
  intros Hs Hr.
  destruct rest as [|c rest]; [destruct s; try discriminate; reflexivity|].
  cbn [terminated] in Hr.
  assert (Hc : c = 44 \/ c = 125 \/ c = 93).
  { apply orb_true_iff in Hr. destruct Hr as [Hr|Hr].
    - apply orb_true_iff in Hr. destruct Hr as [Hr|Hr];
        apply Z.eqb_eq in Hr; auto.
    - apply Z.eqb_eq in Hr; auto. }
  destruct s; try discriminate; destruct Hc as [-> | [-> | ->]]; reflexivity.
Qed.

Lemma isDigit_range c : strconv.isDigit c = true -> 48 <= c <= 57.
Proof.
  unfold strconv.isDigit. intros H. apply andb_true_iff in H.
  destruct H as [H1 H2]. apply Z.leb_le in H1, H2. lia.
Qed.

Lemma scanRun_digits ds :
  forallb strconv.isDigit ds = true ->
  scanRun json.state1 ds = Some json.state1.
Proof.
  induction ds as [|c ds IH]; intros H; [reflexivity|].
  cbn [forallb] in H. apply andb_true_iff in H. destruct H as [Hc Hds].
  cbn [scanRun json.step]. unfold json.isDigit. rewrite Hc. auto.
Qed.

Lemma step_begin_digit c :
  49 <= c <= 57 ->
  json.step json.stateBeginValue c = (json.state1, json.scanBeginLiteral).
Proof.
  intros Hc. cbn [json.step]. unfold json.isSpace.
  repeat match goal with
         | |- context [?a =? ?b] =>
             replace (a =? b) with false by (symmetry; apply Z.eqb_neq; lia)
         end.
  replace (49 <=? c) with true by (symmetry; apply Z.leb_le; lia).
  replace (c <=? 57) with true by (symmetry; apply Z.leb_le; lia).
  reflexivity.
Qed.

Lemma step_neg_digit c :
  49 <= c <= 57 ->
  json.step json.stateNeg c = (json.state1, json.scanContinue).
Proof.
  intros Hc. cbn [json.step].
  replace (c =? 48) with false by (symmetry; apply Z.eqb_neq; lia).
  replace (49 <=? c) with true by (symmetry; apply Z.leb_le; lia).
  replace (c <=? 57) with true by (symmetry; apply Z.leb_le; lia).
  reflexivity.
Qed.

(** The scanner reads the whole text of an int64 and stops in a state of
    an integer. *)
Lemma scanRun_FormatInt n :
  - 2 ^ 63 <= n < 2 ^ 63 ->
  exists s, (s = json.state0 \/ s = json.state1) /\
            scanRun json.stateBeginValue (strconv.FormatInt n) = Some s.
Proof.
  intros Hn.
  destruct (FormatInt_digits n Hn) as (d & ds & Heq & Hdig & _ & Hpos & Hz).
  rewrite Heq. cbn [forallb] in Hdig. apply andb_true_iff in Hdig.
  destruct Hdig as [Hd Hds]. apply isDigit_range in Hd.
  destruct (Z.eq_dec n 0) as [->|Hn0].
  - destruct (Hz eq_refl) as [-> ->]. exists json.state0. split; auto.
  - specialize (Hpos Hn0). exists json.state1. split; auto.
    destruct (n <? 0).
    + cbn [app scanRun]. change (json.step json.stateBeginValue 45)
        with (json.stateNeg, json.scanBeginLiteral).
      cbn [scanRun]. rewrite step_neg_digit by lia.
      apply scanRun_digits; assumption.
    + cbn [app scanRun]. rewrite step_begin_digit by lia.
      apply scanRun_digits; assumption.
Qed.

Lemma plainByte_range b : plainByte b = true -> 32 <= b < 128 /\ b <> 34 /\ b <> 92.
Proof.
  unfold plainByte. intros H.
  apply andb_true_iff in H. destruct H as [H H4].
  apply andb_true_iff in H. destruct H as [H H3].
  apply andb_true_iff in H. destruct H as [H1 H2].
  apply Z.leb_le in H1. apply Z.ltb_lt in H2.
  apply negb_true_iff in H3, H4. apply Z.eqb_neq in H3, H4. lia.
Qed.

Lemma step_inString_other b :
  32 <= b -> b <> 34 -> b <> 92 ->
  json.step json.stateInString b = (json.stateInString, json.scanContinue).
Proof.
  intros H1 H2 H3. cbn [json.step].
  replace (b =? 34) with false by (symmetry; apply Z.eqb_neq; lia).
  replace (b =? 92) with false by (symmetry; apply Z.eqb_neq; lia).
  replace (b <? 32) with false by (symmetry; apply Z.ltb_ge; lia).
  reflexivity.
Qed.

(** A rune that starts with a byte from 128 on is made of bytes from 128
    on. *)
Lemma DecodeRune_width c r rr size :
  128 <= c ->
  utf8.DecodeRune (c :: r) = (rr, size) ->
  exists pre rest,
    c :: r = pre ++ rest /\ List.length pre = size /\ (1 <= size)%nat /\
    Forall (fun b => 128 <= b) pre.
Proof.
  intros Hc. unfold utf8.DecodeRune.
  replace (c <? 128) with false by (symmetry; apply Z.ltb_ge; lia).
  assert (H1 : (utf8.RuneError, 1%nat) = (rr, size) ->
               exists pre rest, c :: r = pre ++ rest /\ List.length pre = size /\
                                (1 <= size)%nat /\ Forall (fun b => 128 <= b) pre).
  { intros E. inversion E; subst. exists [c], r. repeat split; auto. }
  destruct ((c <? 194) || (244 <? c)).
  { exact H1. }
  set (lo := if c =? 224 then 160 else if c =? 240 then 144 else 128).
  assert (Hlo : 128 <= lo) by (unfold lo; repeat destruct (_ =? _); lia).
  set (hi := if c =? 237 then 159 else if c =? 244 then 143 else 191).
  generalize (if c <? 224 then 2%nat else if c <? 240 then 3%nat else 4%nat).
  intros sz.
  destruct (List.length (c :: r) <? sz)%nat eqn:Elen.
  { exact H1. }
  apply Nat.ltb_ge in Elen.
  destruct ((nth 1 (c :: r) 0 <? lo) || (hi <? nth 1 (c :: r) 0)) eqn:E1.
  { exact H1. }
  apply orb_false_iff in E1. destruct E1 as [E1 _]. apply Z.ltb_ge in E1.
  destruct (sz <=? 2)%nat eqn:E2.
  { intros E. inversion E; subst.
    destruct r as [|b1 r1].
    - cbn [nth] in E1. lia.
    - exists [c; b1], r1. cbn [nth] in E1. repeat split; auto.
      repeat constructor; lia. }
  apply Nat.leb_gt in E2.
  destruct (negb (utf8.cont (nth 2 (c :: r) 0))) eqn:E3.
  { exact H1. }
  apply negb_false_iff in E3. unfold utf8.cont in E3.
  apply andb_true_iff in E3. destruct E3 as [E3 _]. apply Z.leb_le in E3.
  destruct (sz <=? 3)%nat eqn:E4.
  { intros E. inversion E; subst.
    destruct r as [|b1 [|b2 r2]]; cbn [nth] in *; try lia.
    exists [c; b1; b2], r2. repeat split; auto. repeat constructor; lia. }
  destruct (negb (utf8.cont (nth 3 (c :: r) 0))) eqn:E5.
  { exact H1. }
  apply negb_false_iff in E5. unfold utf8.cont in E5.
  apply andb_true_iff in E5. destruct E5 as [E5 _]. apply Z.leb_le in E5.
  intros E. inversion E; subst.
  destruct r as [|b1 [|b2 [|b3 r3]]]; cbn [nth] in *; try lia.
  exists [c; b1; b2; b3], r3. repeat split; auto. repeat constructor; lia.
Qed.

Lemma scanRun_high pre rest :
  Forall (fun b => 128 <= b) pre ->
  scanRun json.stateInString (pre ++ rest) = scanRun json.stateInString rest.
Proof.
  induction 1 as [|b pre Hb Hpre IH]; [reflexivity|].
  cbn [app]. rewrite (scanRun_cons _ b _ json.stateInString); [exact IH|].
  apply step_inString_other; lia.
Qed.

(** The scanner stays inside the string over a key that needs no
    escape. *)
Lemma unquote_plain_scanRun fuel k :
  json.unquote_plain fuel k = true ->
  scanRun json.stateInString k = Some json.stateInString.
Proof.
  revert k. induction fuel as [|fuel IH]; intros k H; [discriminate|].
  destruct k as [|c r]; [reflexivity|].
  cbn [json.unquote_plain] in H.
  destruct ((c =? 92) || (c =? 34) || (c <? 32)) eqn:E; [discriminate|].
  apply orb_false_iff in E. destruct E as [E E32].
  apply orb_false_iff in E. destruct E as [E92 E34].
  apply Z.eqb_neq in E92, E34. apply Z.ltb_ge in E32.
  destruct (c <? 128) eqn:E128.
  - rewrite (scanRun_cons _ c _ json.stateInString)
      by (apply step_inString_other; lia).
    apply IH, H.
  - apply Z.ltb_ge in E128.
    destruct (utf8.DecodeRune (c :: r)) as [rr size] eqn:ED.
    destruct ((rr =? utf8.RuneError) && (size =? 1)%nat); [discriminate|].
    destruct (DecodeRune_width c r rr size E128 ED)
      as (pre & rest & Hsplit & Hsz & _ & Hhigh).
    assert (Hskip : skipn size (c :: r) = rest).
    { rewrite Hsplit, <- Hsz. clear. induction pre; [reflexivity|exact IHpre]. }
    rewrite Hskip in H. rewrite Hsplit, (scanRun_high pre rest Hhigh).
    apply IH, H.
Qed.

Lemma scanRun_plainKey k :
  plainKey k = true ->
  scanRun json.stateInString k = Some json.stateInString.
Proof. apply unquote_plain_scanRun. Qed.

Lemma isHex_hexDigit n : 0 <= n < 16 -> json.isHex (hexDigit n) = true.
Proof.
  intros Hn. unfold hexDigit, json.isHex, json.isDigit, strconv.isDigit.
  destruct (n <? 10) eqn:E.
  - apply Z.ltb_lt in E.
    replace (48 <=? 48 + n) with true by (symmetry; apply Z.leb_le; lia).
    replace (48 + n <=? 57) with true by (symmetry; apply Z.leb_le; lia).
    reflexivity.
  - apply Z.ltb_ge in E.
    replace (97 <=? 87 + n) with true by (symmetry; apply Z.leb_le; lia).
    replace (87 + n <=? 102) with true by (symmetry; apply Z.leb_le; lia).
    now rewrite orb_true_r.
Qed.

(** The escape of a byte keeps the scanner inside the string. *)
Lemma scanRun_escapeByte b :
  isByte b = true ->
  scanRun json.stateInString (escapeByte b) = Some json.stateInString.
Proof.
  unfold isByte. intros H. apply andb_true_iff in H. destruct H as [H1 H2].
  apply Z.leb_le in H1. apply Z.ltb_lt in H2.
  unfold escapeByte.
  destruct (b =? 34) eqn:E1; [reflexivity|].
  destruct (b =? 92) eqn:E2; [reflexivity|].
  apply Z.eqb_neq in E1, E2.
  destruct (b <? 32) eqn:E3.
  - apply Z.ltb_lt in E3.
    assert (Hq : 0 <= b / 16 < 16).
    { split; [apply Z.div_pos; lia|apply Z.div_lt_upper_bound; lia]. }
    pose proof (Z.mod_pos_bound b 16 ltac:(lia)) as Hm.
    rewrite (scanRun_cons json.stateInString 92 _ json.stateInStringEsc eq_refl).
    rewrite (scanRun_cons json.stateInStringEsc 117 _ json.stateInStringEscU eq_refl).
    rewrite (scanRun_cons json.stateInStringEscU 48 _ json.stateInStringEscU1 eq_refl).
    rewrite (scanRun_cons json.stateInStringEscU1 48 _ json.stateInStringEscU12 eq_refl).
    rewrite (scanRun_cons _ _ _ json.stateInStringEscU123)
      by (cbn [json.step]; now rewrite isHex_hexDigit by lia).
    rewrite (scanRun_cons _ _ _ json.stateInString)
      by (cbn [json.step]; now rewrite isHex_hexDigit by lia).
    reflexivity.
  - apply Z.ltb_ge in E3. cbn [scanRun].
    rewrite step_inString_other by lia. reflexivity.
Qed.

Lemma scanRun_escaped s :
  forallb isByte s = true ->
  scanRun json.stateInString (flat_map escapeByte s) = Some json.stateInString.
Proof.
  induction s as [|b s IH]; intros H; [reflexivity|].
  cbn [forallb] in H. apply andb_true_iff in H. destruct H as [Hb Hs].
  cbn [flat_map]. rewrite scanRun_app, scanRun_escapeByte by assumption.
  apply IH, Hs.
Qed.

(** A quoted text whose inside keeps the scanner in the string is read
    whole. *)
Lemma scanRun_quoted body :
  scanRun json.stateInString body = Some json.stateInString ->
  scanRun json.stateBeginValue (34 :: body ++ [34]) = Some json.stateEndValue.
Proof.
  intros H. cbn [scanRun].
  change (json.step json.stateBeginValue 34)
    with (json.stateInString, json.scanBeginLiteral).
  cbn iota beta. rewrite scanRun_app, H. reflexivity.
Qed.

(** ** Literals *)

Lemma unquote_plain_plainText fuel k :
  plainText k = true -> (List.length k < fuel)%nat ->
  json.unquote_plain fuel k = true.
Proof.
  revert fuel. induction k as [|b k IH]; intros fuel H Hf.
  - destruct fuel; [inversion Hf|reflexivity].
  - destruct fuel as [|fuel]; [inversion Hf|].
    cbn [plainText forallb] in H. apply andb_true_iff in H. destruct H as [Hb Hk].
    apply plainByte_range in Hb. cbn [json.unquote_plain].
    replace (b =? 92) with false by (symmetry; apply Z.eqb_neq; lia).
    replace (b =? 34) with false by (symmetry; apply Z.eqb_neq; lia).
    replace (b <? 32) with false by (symmetry; apply Z.ltb_ge; lia).
    replace (b <? 128) with true by (symmetry; apply Z.ltb_lt; lia).
    cbn [orb]. apply IH; [assumption|]. cbn [List.length] in Hf. lia.
Qed.

(** A text of plain bytes is a key that needs no escape. *)
Lemma plainText_plainKey k : plainText k = true -> plainKey k = true.
Proof. intros Hk. apply unquote_plain_plainText; [exact Hk|lia]. Qed.

(** A key between quotation marks is read back as it is. *)
Lemma literalInterface_key k :
  plainKey k = true ->
  json.literalInterface (34 :: k ++ [34]) = (AString k, None).
Proof.
  intros Hk. cbn [json.literalInterface].
  change (34 =? 110) with false. change (34 =? 116) with false.
  change (34 =? 102) with false. change (34 =? 34) with true.
  cbn [orb]. unfold json.unquote.
  rewrite rev_app_distr. cbn [rev app]. rewrite rev_involutive.
  unfold plainKey in Hk. rewrite Hk. reflexivity.
Qed.

(** A quoted text is read as a text. *)
Lemma literalInterface_quoted r :
  exists s, json.literalInterface (34 :: r) = (AString s, None).
Proof.
  cbn [json.literalInterface].
  change (34 =? 110) with false. change (34 =? 116) with false.
  change (34 =? 102) with false. change (34 =? 34) with true.
  cbn [orb]. destruct (json.unquote (34 :: r)); eexists; reflexivity.
Qed.

Lemma digitsValue_digits ds a :
  forallb strconv.isDigit ds = true ->
  json.digitsValue ds a = (fold_left (fun a c => a * 10 + (c - 48)) ds a, []).
Proof.
  revert a. induction ds as [|c ds IH]; intros a H; [reflexivity|].
  cbn [forallb] in H. apply andb_true_iff in H. destruct H as [Hc Hds].
  cbn [json.digitsValue fold_left]. unfold json.isDigit. rewrite Hc.
  apply IH, Hds.
Qed.

Lemma decimalOf_digits d ds :
  forallb strconv.isDigit (d :: ds) = true ->
  json.decimalOf (d :: ds) = (digitsVal (d :: ds), 0).
Proof.
  intros H. unfold json.decimalOf.
  assert (Hd : d <> 45).
  { cbn [forallb] in H. apply andb_true_iff in H. destruct H as [H _].
    apply isDigit_range in H. lia. }
  replace (d =? 45) with false by (symmetry; apply Z.eqb_neq; lia).
  rewrite digitsValue_digits by assumption. reflexivity.
Qed.

Lemma decimalOf_neg_digits d ds :
  forallb strconv.isDigit (d :: ds) = true ->
  json.decimalOf (45 :: d :: ds) = (digitsVal (d :: ds), 0).
Proof.
  intros H. unfold json.decimalOf. change (45 =? 45) with true. cbv iota.
  rewrite digitsValue_digits by assumption. reflexivity.
Qed.

(** The text of an int64 is a number token: a float64, in range. *)
Lemma literalInterface_FormatInt n :
  - 2 ^ 63 <= n < 2 ^ 63 ->
  json.literalInterface (strconv.FormatInt n) =
  (AFloat64 (strconv.FormatInt n), None).
Proof.
  intros Hn.
  destruct (FormatInt_digits n Hn) as (d & ds & Heq & Hdig & Hval & _ & _).
  assert (Hd : 48 <= d <= 57).
  { cbn [forallb] in Hdig. apply andb_true_iff in Hdig. destruct Hdig as [H _].
    now apply isDigit_range in H. }
  assert (Hov : json.ParseFloat_overflows (strconv.FormatInt n) = false).
  { unfold json.ParseFloat_overflows.
    assert (Hdec : json.decimalOf (strconv.FormatInt n) = (Z.abs n, 0)).
    { rewrite Heq. destruct (n <? 0).
      - cbn [app]. rewrite decimalOf_neg_digits by assumption. now rewrite Hval.
      - cbn [app]. rewrite decimalOf_digits by assumption. now rewrite Hval. }
    rewrite Hdec. change (0 <=? 0) with true. cbv iota.
    apply Z.leb_gt. rewrite Z.pow_0_r, Z.mul_1_r.
    assert (2 ^ 63 < 2 ^ 1024 - 2 ^ 970) by (vm_compute; reflexivity).
    lia. }
  unfold json.literalInterface. rewrite Hov.
  rewrite Heq. destruct (n <? 0); cbn [app].
  - reflexivity.
  - replace (d =? 110) with false by (symmetry; apply Z.eqb_neq; lia).
    replace (d =? 116) with false by (symmetry; apply Z.eqb_neq; lia).
    replace (d =? 102) with false by (symmetry; apply Z.eqb_neq; lia).
    replace (d =? 34) with false by (symmetry; apply Z.eqb_neq; lia).
    reflexivity.
Qed.

(** ** Tokens of an encoding *)

Lemma skipn_nth_error (data : bytes) pos c rest :
  skipn pos data = c :: rest -> nth_error data pos = Some c.
Proof.
  revert data. induction pos as [|pos IH]; intros data H.
  - cbn in H. subst. reflexivity.
  - destruct data as [|b data]; [discriminate|]. apply IH, H.
Qed.

Lemma skipn_shift (data : bytes) pos a rest :
  skipn pos data = a ++ rest -> skipn (pos + List.length a) data = rest.
Proof.
  intros H. rewrite Nat.add_comm, <- skipn_skipn, H. clear H.
  induction a as [|b a IH]; [reflexivity|]. cbn [List.length skipn app]. exact IH.
Qed.

Lemma skipn_next (data : bytes) pos c rest :
  skipn pos data = c :: rest -> skipn (S pos) data = rest.
Proof.
  intros H. replace (S pos) with (pos + List.length [c])%nat by (cbn; lia).
  now apply skipn_shift.
Qed.

Lemma firstn_exact (a rest : bytes) : firstn (List.length a) (a ++ rest) = a.
Proof. induction a as [|b a IH]; [reflexivity|]. cbn. now rewrite IH. Qed.

Lemma peek_at data pos st stk c rest :
  skipn pos data = c :: rest ->
  json.isSpace c = false ->
  json.peek (mkDec data pos st stk) = (inl c, mkDec data pos st stk).
Proof.
  intros H Hc. unfold json.peek. cbn [mkDec json.scanp json.buf].
  rewrite H. cbn [json.skipSpace]. rewrite Hc. reflexivity.
Qed.

Lemma literalStart_tests c :
  literalStart c = true ->
  json.isSpace c = false /\ (c =? 91) = false /\ (c =? 93) = false /\
  (c =? 123) = false /\ (c =? 125) = false /\ (c =? 58) = false /\
  (c =? 44) = false.
Proof.
  unfold literalStart. intros H.
  repeat (apply andb_true_iff in H; destruct H as [H ?]).
  repeat match goal with
         | H : negb _ = true |- _ => apply negb_true_iff in H
         end.
  auto 10.
Qed.

(** [Decode] on a literal [item] that the scanner reads whole. *)
Lemma Decode_literal data pos st stk item rest x :
  skipn pos data = item ++ rest ->
  json.tokenValueAllowed (mkDec data pos st stk) = true ->
  json.readValue_scan json.stateBeginValue (item ++ rest) 0 pos
    = inl (List.length item) ->
  json.literalInterface item = (x, None) ->
  json.Decode (mkDec data pos st stk) =
  (x, None, json.tokenValueEnd (mkDec data (pos + List.length item) st stk)).
Proof.
  intros Hskip Hst Hscan Hlit. unfold json.Decode.
  cbn [mkDec json.derr].
  assert (Hprep : json.tokenPrepareForDecode (mkDec data pos st stk)
                  = (None, mkDec data pos st stk)).
  { destruct st; try discriminate; reflexivity. }
  fold (mkDec data pos st stk). rewrite Hprep, Hst. cbn [negb].
  unfold json.readValue. cbn [mkDec json.scanp json.buf].
  rewrite Hskip, Hscan, firstn_exact, Hlit. reflexivity.
Qed.

(** [Token], where a value is expected, on a literal. *)
Lemma Token_body_literal k data pos st stk item rest x :
  skipn pos data = item ++ rest ->
  valueState st = true ->
  literalStart (hd 0 item) = true ->
  item <> [] ->
  json.readValue_scan json.stateBeginValue (item ++ rest) 0 pos
    = inl (List.length item) ->
  json.literalInterface item = (x, None) ->
  json.Token_body k (mkDec data pos st stk) =
  (x, None, mkDec data (pos + List.length item) (valueEnd st) stk).
Proof.
  intros Hskip Hst Hc Hne Hscan Hlit.
  destruct item as [|c r]; [congruence|]. cbn [hd] in Hc.
  destruct (literalStart_tests c Hc) as (Hsp & H1 & H2 & H3 & H4 & H5 & H6).
  unfold json.Token_body.
  rewrite (peek_at data pos st stk c (r ++ rest) Hskip Hsp).
  rewrite H1, H2, H3, H4, H5, H6.
  assert (Hal : json.tokenValueAllowed (mkDec data pos st stk) = true).
  { destruct st; try discriminate; reflexivity. }
  replace ((c =? 34) &&
           (json.tokenState_eqb (json.tokState (mkDec data pos st stk)) json.tokenObjectStart
            || json.tokenState_eqb (json.tokState (mkDec data pos st stk)) json.tokenObjectKey))
    with false.
  2:{ destruct st; try discriminate; cbn; now rewrite andb_false_r. }
  rewrite Hal. cbn [negb].
  rewrite (Decode_literal data pos st stk (c :: r) rest x Hskip Hal Hscan Hlit).
  destruct st; try discriminate; reflexivity.
Qed.

(** [Token], where a key is expected, on a quoted key. *)
Lemma Token_body_key k data pos st stk key rest :
  skipn pos data = 34 :: key ++ 34 :: rest ->
  st = json.tokenObjectStart \/ st = json.tokenObjectKey ->
  plainKey key = true ->
  json.Token_body k (mkDec data pos st stk) =
  (AString key, None,
   mkDec data (pos + S (S (List.length key))) json.tokenObjectColon stk).
Proof.
  intros Hskip Hst Hk.
  assert (Hskip' : skipn pos data = (34 :: key ++ [34]) ++ rest).
  { rewrite Hskip. cbn [app]. now rewrite <- app_assoc. }
  assert (Hscan : json.readValue_scan json.stateBeginValue
                    ((34 :: key ++ [34]) ++ rest) 0 pos
                  = inl (List.length (34 :: key ++ [34]))).
  { rewrite (readValue_scan_run _ json.stateEndValue).
    - apply readValue_scan_end.
    - apply scanRun_quoted, scanRun_plainKey, Hk. }
  unfold json.Token_body.
  rewrite (peek_at data pos st stk 34 (key ++ 34 :: rest) Hskip eq_refl).
  change (34 =? 91) with false. change (34 =? 93) with false.
  change (34 =? 123) with false. change (34 =? 125) with false.
  change (34 =? 58) with false. change (34 =? 44) with false.
  change (34 =? 34) with true. cbv iota.
  replace (json.tokenState_eqb (json.tokState (mkDec data pos st stk)) json.tokenObjectStart
           || json.tokenState_eqb (json.tokState (mkDec data pos st stk)) json.tokenObjectKey)
    with true by (destruct Hst; subst; reflexivity).
  cbn [andb]. change (json.set_tokState (mkDec data pos st stk) json.tokenTopValue)
    with (mkDec data pos json.tokenTopValue stk).
  rewrite (Decode_literal data pos json.tokenTopValue stk (34 :: key ++ [34]) rest
             (AString key) Hskip' eq_refl Hscan (literalInterface_key key Hk)).
  cbn [json.tokenValueEnd mkDec json.tokState json.set_tokState
       json.buf json.scanp json.derr json.tokenStack].
  unfold mkDec, json.set_tokState.
  cbn [json.buf json.scanp json.derr json.tokenStack].
  replace (List.length (34 :: key ++ [34])) with (S (S (List.length key)));
    [reflexivity|].
  cbn [List.length]. rewrite length_app. cbn [List.length]. lia.
Qed.

(** [Token] on the structural characters. *)
Lemma Token_body_open k data pos st stk c rest :
  skipn pos data = c :: rest ->
  c = 91 \/ c = 123 ->
  json.tokenValueAllowed (mkDec data pos st stk) = true ->
  json.Token_body k (mkDec data pos st stk) =
  (ADelim c, None,
   mkDec data (S pos)
     (if c =? 91 then json.tokenArrayStart else json.tokenObjectStart)
     (st :: stk)).
Proof.
  intros Hskip Hc Hal. unfold json.Token_body.
  rewrite (peek_at data pos st stk c rest Hskip)
    by (destruct Hc; subst; reflexivity).
  rewrite Hal. destruct Hc; subst; reflexivity.
Qed.

Lemma Token_body_close_array k data pos st st0 stk rest :
  skipn pos data = 93 :: rest ->
  st = json.tokenArrayStart \/ st = json.tokenArrayComma ->
  json.Token_body k (mkDec data pos st (st0 :: stk)) =
  (ADelim 93, None, mkDec data (S pos) (valueEnd st0) stk).
Proof.
  intros Hskip Hst. unfold json.Token_body.
  rewrite (peek_at data pos st (st0 :: stk) 93 rest Hskip eq_refl).
  destruct Hst; subst; destruct st0; reflexivity.
Qed.

Lemma Token_body_close_object k data pos st st0 stk rest :
  skipn pos data = 125 :: rest ->
  st = json.tokenObjectStart \/ st = json.tokenObjectComma ->
  json.Token_body k (mkDec data pos st (st0 :: stk)) =
  (ADelim 125, None, json.tokenValueEnd (mkDec data (S pos) st0 stk)).
Proof.
  intros Hskip Hst. unfold json.Token_body.
  rewrite (peek_at data pos st (st0 :: stk) 125 rest Hskip eq_refl).
  destruct Hst; subst; reflexivity.
Qed.

Lemma Token_body_colon k data pos stk rest :
  skipn pos data = 58 :: rest ->
  json.Token_body k (mkDec data pos json.tokenObjectColon stk) =
  k (mkDec data (S pos) json.tokenObjectValue stk).
Proof.
  intros Hskip. unfold json.Token_body.
  rewrite (peek_at data pos _ stk 58 rest Hskip eq_refl). reflexivity.
Qed.

Lemma Token_body_comma k data pos st stk rest :
  skipn pos data = 44 :: rest ->
  st = json.tokenArrayComma \/ st = json.tokenObjectComma ->
  json.Token_body k (mkDec data pos st stk) =
  k (mkDec data (S pos)
       (if json.tokenState_eqb st json.tokenArrayComma
        then json.tokenArrayValue else json.tokenObjectKey) stk).
Proof.
  intros Hskip Hst. unfold json.Token_body.
  rewrite (peek_at data pos st stk 44 rest Hskip eq_refl).
  destruct Hst; subst; reflexivity.
Qed.

Lemma Token_loop_unfold n dec :
  json.Token_loop n dec =
  json.Token_body
    (fun d =>
       match n with
       | O => (Nil, Some (SyntaxError 0 (json.InputOffset d)), d)
       | S f => json.Token_loop f d
       end) dec.
Proof. destruct n; reflexivity. Qed.

(** ** Decoding an encoding: literals *)

Lemma decodes_scalar v x :
  need v = 1%nat ->
  decoded v = x ->
  render v <> [] ->
  literalStart (hd 0 (render v)) = true ->
  (forall rest pos,
      terminated rest = true ->
      json.readValue_scan json.stateBeginValue (render v ++ rest) 0 pos
      = inl (List.length (render v))) ->
  json.literalInterface (render v) = (x, None) ->
  x = Nil \/ (exists b, x = ABool b) \/ (exists l, x = AFloat64 l)
  \/ (exists s, x = AString s) ->
  decodes v.
Proof.
  intros Hneed Hshape Hne Hstart Hscan Hlit Hx.
  intros n fuel data pos st stk rest d Hskip Hterm Hst Hfuel.
  exists x, (mkDec data (pos + List.length (render v)) (valueEnd st) stk), x.
  eexists. split; [|split; [|split; [|split]]].
  - rewrite Token_loop_unfold.
    apply (Token_body_literal _ data pos st stk (render v) rest x); auto.
  - rewrite Hneed in Hfuel. destruct fuel as [|fuel]; [lia|].
    rewrite asInterface_S. cbn [currentToken set_currentToken].
    destruct Hx as [-> | [[b ->] | [[l ->] | [s ->]]]]; reflexivity.
  - now rewrite Hshape.
  - reflexivity.
  - reflexivity.
Qed.

Lemma readValue_scan_word w rest pos :
  scanRun json.stateBeginValue w = Some json.stateEndValue ->
  json.readValue_scan json.stateBeginValue (w ++ rest) 0 pos
  = inl (List.length w).
Proof.
  intros H. rewrite (readValue_scan_run _ json.stateEndValue _ _ _ _ H).
  apply readValue_scan_end.
Qed.

Lemma decodes_Nil : decodes Nil.
Proof.
  apply (decodes_scalar Nil Nil).
  - reflexivity.
  - reflexivity.
  - discriminate.
  - reflexivity.
  - intros rest pos _. now apply readValue_scan_word.
  - reflexivity.
  - auto.
Qed.

Lemma decodes_ABool b : decodes (ABool b).
Proof.
  apply (decodes_scalar (ABool b) (ABool b)).
  - reflexivity.
  - reflexivity.
  - destruct b; discriminate.
  - destruct b; reflexivity.
  - intros rest pos _. destruct b; now apply readValue_scan_word.
  - destruct b; reflexivity.
  - right; left; eauto.
Qed.

Lemma decodes_AInt64 n : legal (AInt64 n) = true -> decodes (AInt64 n).
Proof.
  intros Hn. cbn [legal] in Hn. apply andb_true_iff in Hn.
  destruct Hn as [H1 H2]. apply Z.leb_le in H1. apply Z.ltb_lt in H2.
  assert (Hr : - 2 ^ 63 <= n < 2 ^ 63) by lia.
  destruct (FormatInt_digits n Hr) as (d & ds & Heq & Hdig & _ & _ & _).
  assert (Hd : 48 <= d <= 57).
  { cbn [forallb] in Hdig. apply andb_true_iff in Hdig. destruct Hdig as [H _].
    now apply isDigit_range in H. }
  apply (decodes_scalar (AInt64 n) (AFloat64 (strconv.FormatInt n)));
    cbn [render need decoded]; try reflexivity.
  - rewrite Heq. destruct (n <? 0); discriminate.
  - rewrite Heq. destruct (n <? 0); [reflexivity|]. cbn [app hd].
    unfold literalStart, json.isSpace.
    repeat match goal with
           | |- context [d =? ?b] =>
               replace (d =? b) with false by (symmetry; apply Z.eqb_neq; lia)
           end.
    reflexivity.
  - intros rest pos Hterm.
    destruct (scanRun_FormatInt n Hr) as (s & Hs & Hrun).
    rewrite (readValue_scan_run _ s _ _ _ _ Hrun).
    now apply readValue_scan_number_end.
  - now apply literalInterface_FormatInt.
  - right; right; left; eauto.
Qed.

Lemma numberLiteral_head lit :
  numberLiteral lit = true ->
  exists c r s,
    lit = c :: r /\ (c = 45 \/ 48 <= c <= 57) /\
    scanRun json.stateBeginValue lit = Some s /\ numberEnd s = true.
Proof.
  unfold numberLiteral. destruct lit as [|c r]; [discriminate|].
  intros H. apply andb_true_iff in H. destruct H as [Hc Hs].
  destruct (scanRun json.stateBeginValue (c :: r)) as [s|]; [|discriminate].
  exists c, r, s. split; [reflexivity|]. split; [|auto].
  apply orb_true_iff in Hc. destruct Hc as [Hc|Hc].
  - apply Z.eqb_eq in Hc. auto.
  - apply isDigit_range in Hc. auto.
Qed.

Lemma literalStart_number c : c = 45 \/ 48 <= c <= 57 -> literalStart c = true.
Proof.
  intros Hc. unfold literalStart, json.isSpace.
  repeat match goal with
         | |- context [c =? ?b] =>
             replace (c =? b) with false by (symmetry; apply Z.eqb_neq; lia)
         end.
  reflexivity.
Qed.

(** A number literal in range is a number token: the float64 that it
    stands for. *)
Lemma literalInterface_number lit :
  legal (AFloat64 lit) = true ->
  json.literalInterface lit = (AFloat64 lit, None).
Proof.
  intros H. cbn [legal] in H. apply andb_true_iff in H. destruct H as [Hn Hov].
  apply negb_true_iff in Hov.
  destruct (numberLiteral_head lit Hn) as (c & r & s & -> & Hc & _).
  unfold json.literalInterface. rewrite Hov.
  replace (c =? 110) with false by (symmetry; apply Z.eqb_neq; lia).
  replace (c =? 116) with false by (symmetry; apply Z.eqb_neq; lia).
  replace (c =? 102) with false by (symmetry; apply Z.eqb_neq; lia).
  replace (c =? 34) with false by (symmetry; apply Z.eqb_neq; lia).
  reflexivity.
Qed.

Lemma decodes_AFloat64 lit : legal (AFloat64 lit) = true -> decodes (AFloat64 lit).
Proof.
  intros HL. pose proof HL as H. cbn [legal] in H.
  apply andb_true_iff in H. destruct H as [Hn _].
  destruct (numberLiteral_head lit Hn) as (c & r & s & Heq & Hc & Hrun & Hend).
  apply (decodes_scalar (AFloat64 lit) (AFloat64 lit));
    cbn [render need decoded]; try reflexivity.
  - rewrite Heq. discriminate.
  - rewrite Heq. cbn [hd]. now apply literalStart_number.
  - intros rest pos Hterm.
    rewrite (readValue_scan_run _ s _ _ _ _ Hrun).
    now apply readValue_scan_numberEnd.
  - now apply literalInterface_number.
  - right; right; left; eauto.
Qed.

(** A nested nil [JSONMapSlice] is written [null] and read as nil. *)
Lemma decodes_nil_AMapSlice : decodes (AMapSlice None).
Proof.
  apply (decodes_scalar (AMapSlice None) Nil).
  - reflexivity.
  - reflexivity.
  - discriminate.
  - reflexivity.
  - intros rest pos _. now apply readValue_scan_word.
  - reflexivity.
  - auto.
Qed.

Lemma decodes_AString s : legal (AString s) = true -> decodes (AString s).
Proof.
  intros Hs. cbn [legal] in Hs.
  destruct (literalInterface_quoted (flat_map escapeByte s ++ [34])) as [x Hx].
  apply (decodes_scalar (AString s) (AString x));
    cbn [render need decoded]; try reflexivity.
  - unfold quoteJSON. now rewrite Hx.
  - discriminate.
  - intros rest pos _. unfold quoteJSON.
    rewrite (readValue_scan_run _ json.stateEndValue).
    + apply readValue_scan_end.
    + apply scanRun_quoted, scanRun_escaped, Hs.
  - exact Hx.
  - right; right; right; eauto.
Qed.

(** ** Decoding an encoding: arrays *)

(** The encoding of a value of the family starts with a byte that is
    neither white space nor a closing delimiter. *)
Lemma render_head v :
  legal v = true ->
  exists c r, render v = c :: r /\ json.isSpace c = false /\
              (c =? 93) = false /\ (c =? 125) = false.
Proof.
  destruct v as [|b|lit|n|s|c|l|[l|]|]; intros H; try discriminate.
  - exists 110, (bs "ull"). repeat split.
  - destruct b; [exists 116, (bs "rue")|exists 102, (bs "alse")]; repeat split.
  - cbn [legal] in H. apply andb_true_iff in H. destruct H as [Hn _].
    destruct (numberLiteral_head lit Hn) as (c & r & s & -> & Hc & _).
    exists c, r. unfold json.isSpace. cbn [render].
    repeat match goal with
           | |- context [c =? ?b] =>
               replace (c =? b) with false by (symmetry; apply Z.eqb_neq; lia)
           end.
    repeat split.
  - cbn [legal] in H. apply andb_true_iff in H.
    destruct H as [H1 H2]. apply Z.leb_le in H1. apply Z.ltb_lt in H2.
    destruct (FormatInt_digits n (conj H1 H2)) as (d & ds & Heq & Hdig & _).
    cbn [forallb] in Hdig. apply andb_true_iff in Hdig. destruct Hdig as [Hd _].
    apply isDigit_range in Hd. cbn [render]. rewrite Heq.
    destruct (n <? 0); [exists 45, (d :: ds); repeat split|].
    exists d, ds. unfold json.isSpace.
    repeat match goal with
           | |- context [d =? ?b] =>
               replace (d =? b) with false by (symmetry; apply Z.eqb_neq; lia)
           end.
    repeat split.
  - exists 34, (flat_map escapeByte s ++ [34]). repeat split.
  - eexists 91, _. repeat split.
  - eexists 123, _. repeat split.
  - exists 110, (bs "ull"). repeat split.
Qed.

Lemma terminated_commas parts tail :
  terminated tail = true ->
  terminated (commas parts ++ tail) = true.
Proof. intros Ht. destruct parts as [|p parts]; [exact Ht|reflexivity]. Qed.

Lemma closes_terminated tail : closes tail -> terminated tail = true.
Proof. intros [-> | [rest ->]]; reflexivity. Qed.

Lemma commas_cons p parts : commas (p :: parts) = 44 :: p ++ commas parts.
Proof. reflexivity. Qed.

Lemma list_sum_cons a l : list_sum (a :: l) = (a + list_sum l)%nat.
Proof. reflexivity. Qed.

Ltac solve_len :=
  repeat (rewrite length_app || (progress cbn [List.length])); lia.

Lemma mkDec_pos data p q st stk : p = q -> mkDec data p st stk = mkDec data q st stk.
Proof. now intros ->. Qed.

(** The loop of [asInterface] over the elements after the first. *)
Lemma asInterface_array_rest l :
  Forall decodes l ->
  forall fuel data pos st0 stk rest d ret,
    skipn pos data = commas (map render l) ++ 93 :: rest ->
    decoder d = mkDec data pos json.tokenArrayComma (st0 :: stk) ->
    (S (list_sum (map (fun x => S (need x)) l)) <= fuel)%nat ->
    exists xs d2,
      asInterface_array fuel data d ret = Ret (ASlice (ret ++ xs), d2) /\
      xs = map decoded l /\
      decoder d2 = mkDec data (pos + List.length (commas (map render l)) + 1)
                     (valueEnd st0) stk /\
      d_err d2 = d_err d.
Proof.
  induction 1 as [|x l Hx Hl IH];
    intros fuel data pos st0 stk rest d ret Hskip Hd Hfuel;
    (destruct fuel as [|fuel]; [cbn in Hfuel; lia|]);
    rewrite asInterface_array_S, Hd; unfold json.More.
  - cbn [map commas List.concat app] in Hskip.
    rewrite (peek_at _ _ _ _ 93 rest Hskip eq_refl).
    change (negb (93 =? 93) && negb (93 =? 125)) with false. cbv iota beta.
    unfold nextToken. cbn [decoder set_decoder]. unfold json.Token.
    rewrite Token_loop_unfold.
    rewrite (Token_body_close_array _ data pos _ st0 stk rest Hskip (or_intror eq_refl)).
    exists [], (set_decoder (set_decoder d (mkDec data pos json.tokenArrayComma (st0 :: stk)))
                  (mkDec data (S pos) (valueEnd st0) stk)).
    rewrite app_nil_r. split; [reflexivity|]. split; [reflexivity|].
    split; [|reflexivity]. cbn [decoder set_decoder map commas List.concat List.length].
    apply mkDec_pos. lia.
  - cbn [map] in Hskip. rewrite commas_cons in Hskip. cbn [app] in Hskip.
    rewrite <- app_assoc in Hskip.
    rewrite (peek_at _ _ _ _ 44 _ Hskip eq_refl).
    change (negb (44 =? 93) && negb (44 =? 125)) with true. cbv iota beta.
    unfold nextToken. cbn [decoder set_decoder]. unfold json.Token.
    rewrite Token_loop_unfold.
    rewrite (Token_body_comma _ data pos _ (st0 :: stk) _ Hskip (or_introl eq_refl)).
    cbn [json.tokenState_eqb].
    assert (Hskip1 : skipn (S pos) data
                     = render x ++ commas (map render l) ++ 93 :: rest).
    { now apply (skipn_next data pos 44). }
    cbn [map] in Hfuel. rewrite list_sum_cons in Hfuel.
    destruct (Hx 0%nat fuel data (S pos) json.tokenArrayValue (st0 :: stk) _
                (set_decoder d (mkDec data pos json.tokenArrayComma (st0 :: stk)))
                Hskip1 (terminated_commas _ (93 :: rest) eq_refl) eq_refl
                ltac:(lia))
      as (t & dec1 & x' & d2 & HT & HA & Hsh & Hdec & Herr).
    rewrite HT. cbv iota beta. rewrite HA. cbn [bind].
    assert (Hskip2 : skipn (S pos + List.length (render x)) data
                     = commas (map render l) ++ 93 :: rest)
      by now apply skipn_shift.
    cbn [valueEnd] in Hdec.
    destruct (IH fuel data _ st0 stk rest d2 (ret ++ [x']) Hskip2 Hdec ltac:(lia))
      as (xs & d3 & HL & Hshs & Hdec3 & Herr3).
    exists (x' :: xs), d3. rewrite HL, <- app_assoc. cbn [app].
    split; [reflexivity|]. split; [cbn [map]; now rewrite Hsh, Hshs|].
    split.
    + rewrite Hdec3. apply mkDec_pos. cbn [map]. rewrite commas_cons.
      cbn [List.length]. rewrite length_app. lia.
    + rewrite Herr3, Herr. reflexivity.
Qed.

Lemma valueState_allowed data pos st stk :
  valueState st = true ->
  json.tokenValueAllowed (mkDec data pos st stk) = true.
Proof. destruct st; try discriminate; reflexivity. Qed.

Lemma decodes_ASlice l :
  Forall decodes l -> forallb legal l = true -> decodes (ASlice l).
Proof.
  intros HF HL n fuel data pos st stk rest d Hskip Hterm Hst Hfuel.
  cbn [render] in Hskip. cbn [app] in Hskip. rewrite <- app_assoc in Hskip.
  cbn [app] in Hskip.
  pose proof (skipn_next _ _ _ _ Hskip) as Hskip1.
  exists (ADelim 91), (mkDec data (S pos) json.tokenArrayStart (st :: stk)).
  rewrite Token_loop_unfold.
  rewrite (Token_body_open _ data pos st stk 91 _ Hskip (or_introl eq_refl)
             (valueState_allowed data pos st stk Hst)).
  change (91 =? 91) with true. cbv iota.
  cbn [need] in Hfuel.
  destruct fuel as [|fuel]; [lia|]. rewrite asInterface_S.
  cbn [currentToken set_currentToken].
  change (91 =? 123) with false. change (91 =? 91) with true. cbv iota.
  destruct fuel as [|fuel]; [lia|]. rewrite asInterface_array_S.
  cbn [decoder set_currentToken set_decoder]. unfold json.More.
  destruct l as [|x l].
  - cbn [map renderSeq app] in Hskip1.
    rewrite (peek_at _ _ _ _ 93 rest Hskip1 eq_refl).
    change (negb (93 =? 93) && negb (93 =? 125)) with false. cbv iota beta.
    unfold nextToken. cbn [decoder set_decoder]. unfold json.Token.
    rewrite Token_loop_unfold.
    rewrite (Token_body_close_array _ data (S pos) _ st stk rest Hskip1
               (or_introl eq_refl)).
    do 2 eexists. split; [reflexivity|]. split; [reflexivity|].
    split; [reflexivity|]. split; [|reflexivity].
    cbn [decoder set_decoder]. apply mkDec_pos.
    cbn [render map renderSeq app List.length]. lia.
  - cbn [map renderSeq] in Hskip1. rewrite <- app_assoc in Hskip1.
    cbn [forallb] in HL. apply andb_true_iff in HL. destruct HL as [HLx HLl].
    inversion HF as [|? ? Hx Hl]; subst.
    destruct (render_head x HLx) as (c & r & Hr & Hsp & Hc1 & Hc2).
    assert (Hpeek : skipn (S pos) data
                    = c :: r ++ commas (map render l) ++ 93 :: rest).
    { rewrite Hskip1, Hr. reflexivity. }
    rewrite (peek_at _ _ _ _ c _ Hpeek Hsp). rewrite Hc1, Hc2.
    cbn [negb andb]. cbv iota beta.
    unfold nextToken. cbn [decoder set_decoder]. unfold json.Token.
    cbn [map] in Hfuel. rewrite list_sum_cons in Hfuel.
    destruct (Hx 1%nat fuel data (S pos) json.tokenArrayStart (st :: stk) _
                (set_decoder (set_currentToken
                   (set_decoder d (mkDec data (S pos) json.tokenArrayStart (st :: stk)))
                   (ADelim 91))
                   (mkDec data (S pos) json.tokenArrayStart (st :: stk)))
                Hskip1 (terminated_commas _ (93 :: rest) eq_refl) eq_refl
                ltac:(lia))
      as (t & dec1 & x' & d2 & HT & HA & Hsh & Hdec & Herr).
    rewrite HT. cbv iota beta. rewrite HA. cbn [bind].
    assert (Hskip2 : skipn (S pos + List.length (render x)) data
                     = commas (map render l) ++ 93 :: rest)
      by now apply skipn_shift.
    cbn [valueEnd] in Hdec.
    destruct (asInterface_array_rest l Hl fuel data _ st stk rest d2 ([] ++ [x'])
                Hskip2 Hdec ltac:(lia))
      as (xs & d3 & HL & Hshs & Hdec3 & Herr3).
    rewrite HL. do 2 eexists. split; [reflexivity|]. split; [reflexivity|].
    split; [cbn [app decoded map]; now rewrite Hsh, Hshs|].
    split.
    + rewrite Hdec3. apply mkDec_pos.
      cbn [render map renderSeq List.length]. rewrite !length_app.
      cbn [List.length]. lia.
    + rewrite Herr3, Herr. reflexivity.
Qed.

(** ** Decoding an encoding: objects *)

Lemma tokenValueEnd_mkDec data pos st stk :
  json.tokenValueEnd (mkDec data pos st stk) = mkDec data pos (valueEnd st) stk.
Proof. destruct st; reflexivity. Qed.

(** [Token] at the end of the input. *)
Lemma Token_body_eof k data pos st stk :
  skipn pos data = [] ->
  json.Token_body k (mkDec data pos st stk) =
  (Nil, Some EOF, mkDec data pos st stk).
Proof.
  intros Hskip. unfold json.Token_body, json.peek.
  cbn [mkDec json.scanp json.buf]. rewrite Hskip. reflexivity.
Qed.

(** One round of the loop of [JSONunmarshal], once the key is read: the
    colon is found at the offset, the value is decoded, and the item is
    appended. *)
Lemma JSONunmarshal_loop_item v :
  decodes v ->
  forall fuel data pos stk rest d d1 key result,
    nextToken d = (AString key, None, d1) ->
    decoder d1 = mkDec data pos json.tokenObjectColon stk ->
    d_err d1 = d_err d ->
    skipn pos data = 58 :: render v ++ rest ->
    terminated rest = true ->
    (S (need v) <= fuel)%nat ->
    exists d2,
      JSONunmarshal_loop (S fuel) data d result =
        JSONunmarshal_loop fuel data d2 (result ++ [MkItem key (decoded v)]) /\
      decoder d2 = mkDec data (S pos + List.length (render v))
                     json.tokenObjectComma stk /\
      d_err d2 = d_err d.
Proof.
  intros Hv fuel data pos stk rest d d1 key result HT Hd1 He1 Hskip Hterm Hfuel.
  rewrite JSONunmarshal_loop_S, HT. cbn [isDelim is_EOF]. cbv iota beta.
  destruct fuel as [|fuel]; [lia|]. rewrite UnmarshalCustomJSON_S.
  cbn [decoder set_currentToken currentToken]. rewrite Hd1.
  cbn [json.InputOffset mkDec json.scanp].
  rewrite (skipn_nth_error _ _ _ _ Hskip). change (58 =? 58) with true.
  cbv iota. unfold nextToken. cbn [decoder set_currentToken]. rewrite Hd1.
  unfold json.Token. rewrite Token_loop_unfold.
  rewrite (Token_body_colon _ data pos stk _ Hskip).
  destruct (Hv 0%nat fuel data (S pos) json.tokenObjectValue stk rest
              (set_currentToken d1 (AString key))
              (skipn_next _ _ _ _ Hskip) Hterm eq_refl ltac:(lia))
    as (t & dec1 & x & d2 & HT2 & HA & Hx & Hdec & Herr).
  rewrite HT2. cbv iota beta. rewrite HA. cbn [bind]. subst x.
  exists d2. split; [reflexivity|].
  split; [exact Hdec|]. rewrite Herr. exact He1.
Qed.

Lemma forallb_items_cons key v l :
  forallb (fun it => plainKey (Key it) && legal (Value it)) (MkItem key v :: l) = true ->
  plainKey key = true /\ legal v = true /\
  forallb (fun it => plainKey (Key it) && legal (Value it)) l = true.
Proof.
  cbn [forallb Key Value]. intros H. apply andb_true_iff in H.
  destruct H as [H Hl]. apply andb_true_iff in H. destruct H as [Hk Hv]. auto.
Qed.

(** The end of the loop: the closing brace, or the end of the input. *)
Lemma JSONunmarshal_loop_close fuel data pos st st0 stk tail d result :
  closes tail ->
  skipn pos data = tail ->
  st = json.tokenObjectStart \/ st = json.tokenObjectComma ->
  decoder d = mkDec data pos st (st0 :: stk) ->
  exists d2,
    JSONunmarshal_loop (S fuel) data d result = Ret (result, d2) /\
    (forall rest, tail = 125 :: rest ->
                  decoder d2 = mkDec data (S pos) (valueEnd st0) stk) /\
    d_err d2 = d_err d.
Proof.
  intros Htail Hskip Hst Hd.
  rewrite JSONunmarshal_loop_S. unfold nextToken. rewrite Hd.
  unfold json.Token. rewrite Token_loop_unfold.
  destruct Htail as [-> | [rest ->]].
  - rewrite (Token_body_eof _ data pos st (st0 :: stk) Hskip).
    cbn [isDelim is_EOF]. cbv iota.
    eexists. split; [reflexivity|]. split; [discriminate|reflexivity].
  - rewrite (Token_body_close_object _ data pos st st0 stk rest Hskip Hst).
    cbn [isDelim]. change (125 =? 125) with true. cbv iota.
    eexists. split; [reflexivity|]. split; [|reflexivity].
    intros _ _. cbn [decoder set_decoder]. apply tokenValueEnd_mkDec.
Qed.

(** The loop of [JSONunmarshal] over items that come after a first one:
    every item is appended, and the loop goes on behind the last of
    them. *)
Lemma JSONunmarshal_loop_items l :
  Forall (fun it => decodes (Value it)) l ->
  forallb (fun it => plainKey (Key it) && legal (Value it)) l = true ->
  forall k fuel data pos stk tail d result,
    terminated tail = true ->
    skipn pos data = commas (map renderItem l) ++ tail ->
    decoder d = mkDec data pos json.tokenObjectComma stk ->
    (list_sum (map (fun it => S (S (need (Value it)))) l) + k <= fuel)%nat ->
    exists fuel' d2,
      (k <= fuel')%nat /\
      JSONunmarshal_loop fuel data d result
        = JSONunmarshal_loop fuel' data d2 (result ++ map decodedItem l) /\
      decoder d2 = mkDec data (pos + List.length (commas (map renderItem l)))
                     json.tokenObjectComma stk /\
      d_err d2 = d_err d.
Proof.
  induction 1 as [|[key v] l Hv Hl IH];
    intros HL k fuel data pos stk tail d result Hterm Hskip Hd Hfuel.
  - exists fuel, d. cbn [map list_sum] in *. rewrite app_nil_r.
    split; [lia|]. split; [reflexivity|]. split; [|reflexivity].
    rewrite Hd. apply mkDec_pos. cbn [commas List.concat map List.length]. lia.
  - destruct (forallb_items_cons key v l HL) as (Hk & Hlv & HLl).
    cbn [map Value] in Hfuel. rewrite list_sum_cons in Hfuel.
    destruct fuel as [|fuel]; [lia|].
    assert (Hskip0 : skipn pos data
                     = 44 :: 34 :: key ++ 34 :: 58 :: render v
                          ++ commas (map renderItem l) ++ tail).
    { rewrite Hskip. cbn [map]. rewrite commas_cons. unfold renderItem at 1.
      cbn [Key Value]. repeat (rewrite <- app_assoc || rewrite <- app_comm_cons).
      reflexivity. }
    clear Hskip. rename Hskip0 into Hskip.
    assert (HT : nextToken d =
                 (AString key, None,
                  set_decoder d (mkDec data (S pos + S (S (List.length key)))
                                   json.tokenObjectColon stk))).
    { unfold nextToken. rewrite Hd. unfold json.Token. rewrite Token_loop_unfold.
      rewrite (Token_body_comma _ data pos _ stk _ Hskip (or_intror eq_refl)).
      cbn [json.tokenState_eqb]. rewrite Token_loop_unfold.
      rewrite (Token_body_key _ data (S pos) _ stk key _
                 (skipn_next _ _ _ _ Hskip) (or_intror eq_refl) Hk).
      reflexivity. }
    assert (Hskip1 : skipn (S pos + S (S (List.length key))) data
                     = 58 :: render v ++ commas (map renderItem l) ++ tail).
    { apply skipn_next in Hskip.
      replace (S (S (List.length key))) with (List.length (34 :: key ++ [34]))
        by solve_len.
      apply skipn_shift. rewrite Hskip. cbn [app]. now rewrite <- app_assoc. }
    destruct (JSONunmarshal_loop_item v Hv fuel data _ stk _ d _ key result
                HT eq_refl eq_refl Hskip1
                (terminated_commas _ tail Hterm) ltac:(lia))
      as (d2 & Hstep & Hdec & Herr).
    rewrite Hstep.
    assert (Hskip2 : skipn (S (S pos + S (S (List.length key))) + List.length (render v))
                       data
                     = commas (map renderItem l) ++ tail).
    { apply skipn_shift. now apply (skipn_next _ _ 58). }
    destruct (IH HLl k fuel data _ stk tail d2 (result ++ [MkItem key (decoded v)])
                Hterm Hskip2 Hdec ltac:(lia))
      as (fuel' & d3 & Hk' & HLoop & Hdec3 & Herr3).
    exists fuel', d3. rewrite HLoop, <- app_assoc.
    split; [exact Hk'|]. split; [reflexivity|]. split; [|now rewrite Herr3, Herr].
    rewrite Hdec3. apply mkDec_pos. cbn [map].
    rewrite commas_cons. unfold renderItem at 2. cbn [Key Value]. solve_len.
Qed.

(** The same from the opening brace, over one item or more. *)
Lemma JSONunmarshal_loop_items_first it l :
  Forall (fun it => decodes (Value it)) (it :: l) ->
  forallb (fun it => plainKey (Key it) && legal (Value it)) (it :: l) = true ->
  forall k fuel data pos stk tail d,
    terminated tail = true ->
    skipn pos data = renderSeq (map renderItem (it :: l)) ++ tail ->
    decoder d = mkDec data pos json.tokenObjectStart stk ->
    (list_sum (map (fun it => S (S (need (Value it)))) (it :: l)) + k <= fuel)%nat ->
    exists fuel' d2,
      (k <= fuel')%nat /\
      JSONunmarshal_loop fuel data d []
        = JSONunmarshal_loop fuel' data d2 (map decodedItem (it :: l)) /\
      decoder d2 = mkDec data (pos + List.length (renderSeq (map renderItem (it :: l))))
                     json.tokenObjectComma stk /\
      d_err d2 = d_err d.
Proof.
  destruct it as [key v].
  intros HF HL k fuel data pos stk tail d Hterm Hskip Hd Hfuel.
  destruct (forallb_items_cons key v l HL) as (Hk & Hlv & HLl).
  inversion HF as [|? ? Hv Hl]; subst. cbn [Value] in Hv.
  assert (Hskip0 : skipn pos data
                   = 34 :: key ++ 34 :: 58 :: render v
                        ++ commas (map renderItem l) ++ tail).
  { rewrite Hskip. cbn [map renderSeq]. unfold renderItem at 1.
    cbn [Key Value]. repeat (rewrite <- app_assoc || rewrite <- app_comm_cons).
    reflexivity. }
  clear Hskip. rename Hskip0 into Hskip.
  cbn [map Value] in Hfuel. rewrite list_sum_cons in Hfuel.
  destruct fuel as [|fuel]; [lia|].
  assert (HT : nextToken d =
               (AString key, None,
                set_decoder d (mkDec data (pos + S (S (List.length key)))
                                 json.tokenObjectColon stk))).
  { unfold nextToken. rewrite Hd. unfold json.Token. rewrite Token_loop_unfold.
    rewrite (Token_body_key _ data pos _ stk key _
               Hskip (or_introl eq_refl) Hk).
    reflexivity. }
  assert (Hskip1 : skipn (pos + S (S (List.length key))) data
                   = 58 :: render v ++ commas (map renderItem l) ++ tail).
  { replace (S (S (List.length key))) with (List.length (34 :: key ++ [34]))
      by solve_len.
    apply skipn_shift. rewrite Hskip. cbn [app]. now rewrite <- app_assoc. }
  destruct (JSONunmarshal_loop_item v Hv fuel data _ stk _ d _ key []
              HT eq_refl eq_refl Hskip1
              (terminated_commas _ tail Hterm) ltac:(lia))
    as (d2 & Hstep & Hdec & Herr).
  rewrite Hstep.
  assert (Hskip2 : skipn (S (pos + S (S (List.length key))) + List.length (render v))
                     data
                   = commas (map renderItem l) ++ tail).
  { apply skipn_shift. now apply (skipn_next _ _ 58). }
  destruct (JSONunmarshal_loop_items l Hl HLl k fuel data _ stk tail d2
              ([] ++ [MkItem key (decoded v)]) Hterm Hskip2 Hdec ltac:(lia))
    as (fuel' & d3 & Hk' & HLoop & Hdec3 & Herr3).
  exists fuel', d3. rewrite HLoop.
  split; [exact Hk'|]. split; [reflexivity|]. split; [|now rewrite Herr3, Herr].
  rewrite Hdec3. apply mkDec_pos.
  cbn [map renderSeq]. unfold renderItem at 2. cbn [Key Value]. solve_len.
Qed.

(** The loop of [JSONunmarshal] over the items after the first, to the end
    of the object. *)
Lemma JSONunmarshal_loop_rest l :
  Forall (fun it => decodes (Value it)) l ->
  forallb (fun it => plainKey (Key it) && legal (Value it)) l = true ->
  forall fuel data pos st0 stk tail d result,
    closes tail ->
    skipn pos data = commas (map renderItem l) ++ tail ->
    decoder d = mkDec data pos json.tokenObjectComma (st0 :: stk) ->
    (S (list_sum (map (fun it => S (S (need (Value it)))) l)) <= fuel)%nat ->
    exists d2,
      JSONunmarshal_loop fuel data d result
        = Ret (result ++ map decodedItem l, d2) /\
      (forall rest,
          tail = 125 :: rest ->
          decoder d2 = mkDec data (pos + List.length (commas (map renderItem l)) + 1)
                         (valueEnd st0) stk) /\
      d_err d2 = d_err d.
Proof.
  intros HF HL fuel data pos st0 stk tail d result Htail Hskip Hd Hfuel.
  destruct (JSONunmarshal_loop_items l HF HL 1%nat fuel data pos (st0 :: stk) tail d
              result (closes_terminated tail Htail) Hskip Hd ltac:(lia))
    as (fuel' & d1 & Hk & HLoop & Hdec & Herr).
  destruct fuel' as [|fuel']; [lia|].
  destruct (JSONunmarshal_loop_close fuel' data _ _ st0 stk tail d1
              (result ++ map decodedItem l) Htail (skipn_shift _ _ _ _ Hskip)
              (or_intror eq_refl) Hdec) as (d2 & HEnd & Hdec2 & Herr2).
  exists d2. rewrite HLoop. split; [exact HEnd|].
  split; [|now rewrite Herr2, Herr].
  intros rest Hrest. rewrite (Hdec2 rest Hrest). apply mkDec_pos. lia.
Qed.

(** The loop of [JSONunmarshal] from the opening brace. *)
Lemma JSONunmarshal_loop_first l :
  Forall (fun it => decodes (Value it)) l ->
  forallb (fun it => plainKey (Key it) && legal (Value it)) l = true ->
  forall fuel data pos st0 stk tail d,
    closes tail ->
    skipn pos data = renderSeq (map renderItem l) ++ tail ->
    decoder d = mkDec data pos json.tokenObjectStart (st0 :: stk) ->
    (S (list_sum (map (fun it => S (S (need (Value it)))) l)) <= fuel)%nat ->
    exists d2,
      JSONunmarshal_loop fuel data d [] = Ret (map decodedItem l, d2) /\
      (forall rest,
          tail = 125 :: rest ->
          decoder d2 = mkDec data (pos + List.length (renderSeq (map renderItem l)) + 1)
                         (valueEnd st0) stk) /\
      d_err d2 = d_err d.
Proof.
  intros HF HL fuel data pos st0 stk tail d Htail Hskip Hd Hfuel.
  destruct l as [|it l].
  - destruct fuel as [|fuel]; [cbn in Hfuel; lia|].
    cbn [map renderSeq app] in Hskip.
    destruct (JSONunmarshal_loop_close fuel data pos _ st0 stk tail d []
                Htail Hskip (or_introl eq_refl) Hd) as (d2 & HLoop & Hdec & Herr).
    exists d2. split; [exact HLoop|]. split; [|exact Herr].
    intros rest Hrest. rewrite (Hdec rest Hrest). apply mkDec_pos.
    cbn [map renderSeq List.length]. lia.
  - destruct (JSONunmarshal_loop_items_first it l HF HL 1%nat fuel data pos (st0 :: stk)
                tail d (closes_terminated tail Htail) Hskip Hd ltac:(lia))
      as (fuel' & d1 & Hk & HLoop & Hdec & Herr).
    destruct fuel' as [|fuel']; [lia|].
    destruct (JSONunmarshal_loop_close fuel' data _ _ st0 stk tail d1
                (map decodedItem (it :: l)) Htail (skipn_shift _ _ _ _ Hskip)
                (or_intror eq_refl) Hdec) as (d2 & HEnd & Hdec2 & Herr2).
    exists d2. rewrite HLoop. split; [exact HEnd|].
    split; [|now rewrite Herr2, Herr].
    intros rest Hrest. rewrite (Hdec2 rest Hrest). apply mkDec_pos. lia.
Qed.

(** The loop of [JSONunmarshal] at a key whose value is cut off: the input
    ends after the colon.  [UnmarshalCustomJSON] stores [io.EOF] and
    leaves the zero item, which the loop appends before it ends at the
    same end of the input. *)
Lemma JSONunmarshal_loop_value_eof fuel data pos st stk sep key d result :
  (st = json.tokenObjectStart /\ sep = []) \/
  (st = json.tokenObjectComma /\ sep = [44]) ->
  skipn pos data = sep ++ 34 :: key ++ [34; 58] ->
  plainKey key = true ->
  decoder d = mkDec data pos st stk ->
  exists d2,
    JSONunmarshal_loop (S (S (S fuel))) data d result
      = Ret (result ++ [zeroItem], d2) /\
    d_err d2 = Some EOF.
Proof.
  intros Hst Hskip Hk Hd.
  set (p := (pos + List.length sep)%nat).
  assert (Hkey : skipn p data = 34 :: key ++ 34 :: [58]).
  { unfold p. now apply skipn_shift. }
  set (q := (p + S (S (List.length key)))%nat).
  assert (Hcolon : skipn q data = [58]).
  { unfold q.
    replace (S (S (List.length key))) with (List.length (34 :: key ++ [34]))
      by solve_len.
    apply skipn_shift. rewrite Hkey. cbn [app]. now rewrite <- app_assoc. }
  assert (Hend : skipn (S q) data = []) by now apply (skipn_next _ _ 58).
  assert (HT : nextToken d =
               (AString key, None,
                set_decoder d (mkDec data q json.tokenObjectColon stk))).
  { unfold nextToken. rewrite Hd. unfold json.Token. rewrite Token_loop_unfold.
    destruct Hst as [[-> ->] | [-> ->]].
    - cbn [app] in Hskip. unfold q, p. cbn [List.length]. rewrite Nat.add_0_r.
      rewrite (Token_body_key _ data pos _ stk key [58] Hskip (or_introl eq_refl) Hk).
      reflexivity.
    - cbn [app] in Hskip.
      rewrite (Token_body_comma _ data pos _ stk _ Hskip (or_intror eq_refl)).
      cbn [json.tokenState_eqb]. rewrite Token_loop_unfold.
      rewrite (Token_body_key _ data (S pos) _ stk key [58]
                 (skipn_next _ _ _ _ Hskip) (or_intror eq_refl) Hk).
      unfold q, p. cbn [List.length]. do 2 f_equal. apply mkDec_pos. lia. }
  rewrite JSONunmarshal_loop_S, HT. cbn [isDelim is_EOF]. cbv iota beta.
  rewrite UnmarshalCustomJSON_S.
  cbn [decoder set_decoder set_currentToken currentToken json.InputOffset
       mkDec json.scanp].
  rewrite (skipn_nth_error _ _ _ _ Hcolon). change (58 =? 58) with true.
  cbv iota. unfold nextToken. cbn [decoder]. unfold json.Token.
  rewrite Token_loop_unfold.
  rewrite (Token_body_colon _ data q stk [] Hcolon).
  rewrite Token_loop_unfold.
  rewrite (Token_body_eof _ data (S q) json.tokenObjectValue stk Hend).
  cbn [bind]. rewrite JSONunmarshal_loop_S.
  unfold nextToken. cbn [decoder set_decoder set_err]. unfold json.Token.
  rewrite Token_loop_unfold.
  rewrite (Token_body_eof _ data (S q) json.tokenObjectValue stk Hend).
  cbn [isDelim is_EOF]. cbv iota.
  eexists. split; reflexivity.
Qed.

Lemma decodes_AMapSlice l :
  Forall (fun it => decodes (Value it)) l ->
  legal (AMapSlice (Some l)) = true ->
  decodes (AMapSlice (Some l)).
Proof.
  intros HF HL n fuel data pos st stk rest d Hskip Hterm Hst Hfuel.
  cbn [legal] in HL.
  assert (Hskip0 : skipn pos data
                   = 123 :: renderSeq (map renderItem l) ++ 125 :: rest).
  { rewrite Hskip.
    change (render (AMapSlice (Some l)))
      with (123 :: renderSeq (map renderItem l) ++ [125]).
    cbn [app]. now rewrite <- app_assoc. }
  pose proof (skipn_next _ _ _ _ Hskip0) as Hskip1.
  exists (ADelim 123), (mkDec data (S pos) json.tokenObjectStart (st :: stk)).
  rewrite Token_loop_unfold.
  rewrite (Token_body_open _ data pos st stk 123 _ Hskip0 (or_intror eq_refl)
             (valueState_allowed data pos st stk Hst)).
  change (123 =? 91) with false. cbv iota.
  cbn [need] in Hfuel.
  destruct fuel as [|fuel]; [lia|]. rewrite asInterface_S.
  cbn [currentToken set_currentToken].
  change (123 =? 123) with true. cbv iota.
  destruct (JSONunmarshal_loop_first l HF HL fuel data (S pos) st stk (125 :: rest)
              (set_currentToken
                 (set_decoder d (mkDec data (S pos) json.tokenObjectStart (st :: stk)))
                 (ADelim 123))
              (or_intror (ex_intro _ rest eq_refl)) Hskip1 eq_refl ltac:(lia))
    as (d2 & HLoop & Hdec & Herr).
  unfold set_currentToken, set_decoder in HLoop.
  cbn [decoder currentToken d_err] in HLoop.
  unfold set_currentToken, set_decoder. cbn [decoder currentToken d_err].
  rewrite HLoop. cbn [bind].
  exists (AMapSlice (Some (map decodedItem l))), d2.
  split; [reflexivity|]. split; [reflexivity|].
  split; [reflexivity|]. split; [|exact Herr].
  rewrite (Hdec rest eq_refl). apply mkDec_pos.
  change (render (AMapSlice (Some l)))
    with (123 :: renderSeq (map renderItem l) ++ [125]).
  solve_len.
Qed.

(** Every value of the family is decoded from its encoding. *)
Lemma legal_decodes v : legal v = true -> decodes v.
Proof.
  induction v as [|b|lit|n|s|c|l IH| |l IH|] using any_induction;
    intros HL; try discriminate.
  - apply decodes_Nil.
  - apply decodes_ABool.
  - now apply decodes_AFloat64.
  - now apply decodes_AInt64.
  - now apply decodes_AString.
  - apply decodes_ASlice; [|exact HL].
    cbn [legal] in HL. rewrite forallb_forall in HL.
    rewrite Forall_forall in *. intros x Hx. apply IH; auto.
  - apply decodes_nil_AMapSlice.
  - apply decodes_AMapSlice; [|exact HL].
    cbn [legal] in HL. rewrite forallb_forall in HL.
    rewrite Forall_forall in *. intros it Hit. apply IH; [exact Hit|].
    specialize (HL it Hit). apply andb_true_iff in HL. tauto.
Qed.


(** The whole of [UnmarshalJSON] on an encoding, with its closing brace or
    without it. *)
Lemma UnmarshalJSON_encoding l fuel s tail :
  legalItems l = true ->
  (need (AMapSlice (Some l)) <= fuel)%nat ->
  closes tail ->
  UnmarshalJSON fuel s (123 :: renderSeq (map renderItem l) ++ tail)
  = Ret (Some (map decodedItem l), None).
Proof.
  intros HL Hfuel Htail. unfold legalItems in HL.
  set (data := 123 :: renderSeq (map renderItem l) ++ tail).
  assert (Hdata : skipn 0 data = 123 :: renderSeq (map renderItem l) ++ tail)
    by reflexivity.
  assert (HF : Forall (fun it => decodes (Value it)) l).
  { cbn [legal] in HL. rewrite forallb_forall in HL. rewrite Forall_forall.
    intros it Hit. apply legal_decodes. specialize (HL it Hit).
    apply andb_true_iff in HL. tauto. }
  cbn [need] in Hfuel.
  destruct (JSONunmarshal_loop_first l HF HL fuel data 1 json.tokenTopValue [] tail
              {| decoder := mkDec data 1 json.tokenObjectStart [json.tokenTopValue];
                 currentToken := Nil; d_err := None |}
              Htail (skipn_next _ _ _ _ Hdata) eq_refl ltac:(lia))
    as (d2 & HLoop & _ & Herr).
  unfold UnmarshalJSON, nextToken. cbn [decoder].
  change (json.NewDecoder data) with (mkDec data 0 json.tokenTopValue []).
  unfold json.Token. rewrite Token_loop_unfold.
  rewrite (Token_body_open _ data 0 json.tokenTopValue [] 123 _ Hdata
             (or_intror eq_refl) eq_refl).
  change (123 =? 91) with false. cbv iota. cbn [is_EOF set_decoder].
  change (negb (123 =? 123)) with false. cbv iota.
  unfold JSONunmarshal, set_decoder. cbn [currentToken d_err].
  rewrite HLoop. cbn [bind]. now rewrite Herr.
Qed.

Lemma commas_app a b : commas (a ++ b) = commas a ++ commas b.
Proof. unfold commas. now rewrite map_app, concat_app. Qed.

Lemma renderSeq_snoc p parts q :
  renderSeq ((p :: parts) ++ [q]) = renderSeq (p :: parts) ++ 44 :: q.
Proof.
  cbn [app renderSeq]. rewrite commas_app, <- app_assoc. f_equal.
  cbn [commas map List.concat]. now rewrite app_nil_r.
Qed.

(** The whole of [UnmarshalJSON] on an encoding that is cut after the
    colon of one more key. *)
Lemma UnmarshalJSON_cut_value l key fuel s :
  legalItems l = true ->
  plainKey key = true ->
  (S (need (AMapSlice (Some l))) <= fuel)%nat ->
  UnmarshalJSON fuel s
    (123 :: renderSeq (map renderItem l ++ [34 :: key ++ [34; 58]]))
  = Ret (Some (map decodedItem l ++ [zeroItem]), Some EOF).
Proof.
  intros HL Hk Hfuel. unfold legalItems in HL.
  set (data := 123 :: renderSeq (map renderItem l ++ [34 :: key ++ [34; 58]])).
  assert (Hdata : skipn 0 data
                  = 123 :: renderSeq (map renderItem l ++ [34 :: key ++ [34; 58]]))
    by reflexivity.
  assert (HF : Forall (fun it => decodes (Value it)) l).
  { cbn [legal] in HL. rewrite forallb_forall in HL. rewrite Forall_forall.
    intros it Hit. apply legal_decodes. specialize (HL it Hit).
    apply andb_true_iff in HL. tauto. }
  cbn [need] in Hfuel. cbn [legal] in HL.
  set (d0 := {| decoder := mkDec data 1 json.tokenObjectStart [json.tokenTopValue];
                currentToken := Nil; d_err := None |}).
  assert (HLoop : exists d2,
             JSONunmarshal_loop fuel data d0 []
             = Ret (map decodedItem l ++ [zeroItem], d2) /\ d_err d2 = Some EOF).
  { pose proof (skipn_next _ _ _ _ Hdata) as Hskip.
    destruct l as [|it l].
    - cbn [map app renderSeq commas List.concat] in Hskip.
      rewrite app_nil_r in Hskip.
      do 3 (destruct fuel as [|fuel]; [cbn in Hfuel; lia|]).
      apply (JSONunmarshal_loop_value_eof fuel data 1 json.tokenObjectStart
               [json.tokenTopValue] [] key d0 []); auto.
    - cbn [map] in Hskip. rewrite renderSeq_snoc in Hskip.
      destruct (JSONunmarshal_loop_items_first it l HF HL 3%nat fuel data 1
                  [json.tokenTopValue] (44 :: 34 :: key ++ [34; 58]) d0
                  eq_refl Hskip eq_refl ltac:(lia))
        as (fuel' & d1 & Hk' & HLoop & Hdec & Herr).
      do 3 (destruct fuel' as [|fuel']; [lia|]).
      rewrite HLoop.
      apply (JSONunmarshal_loop_value_eof fuel' data
               (1 + List.length (renderSeq (map renderItem (it :: l))))
               json.tokenObjectComma [json.tokenTopValue] [44] key d1).
      + right. auto.
      + apply skipn_shift. exact Hskip.
      + exact Hk.
      + exact Hdec. }
  destruct HLoop as (d2 & HLoop & Herr).
  unfold UnmarshalJSON, nextToken. cbn [decoder].
  change (json.NewDecoder data) with (mkDec data 0 json.tokenTopValue []).
  unfold json.Token. rewrite Token_loop_unfold.
  rewrite (Token_body_open _ data 0 json.tokenTopValue [] 123 _ Hdata
             (or_intror eq_refl) eq_refl).
  change (123 =? 91) with false. cbv iota. cbn [is_EOF set_decoder].
  change (negb (123 =? 123)) with false. cbv iota.
  unfold JSONunmarshal, set_decoder. cbn [currentToken d_err].
  fold d0. rewrite HLoop. cbn [bind]. now rewrite Herr.
Qed.

(** ** The encoder writes [render] *)

Lemma JSONMapItem_JSONmarshal_render W it jb :
  W (Value it) = Ret (render (Value it), None) ->
  JSONMapItem_JSONmarshal W it jb =
  Ret {| buffer := buffer jb ++ renderItem it; err := err jb |}.
Proof.
  intros HW. unfold JSONMapItem_JSONmarshal. rewrite HW. cbn [bind].
  unfold appendByteSlice, appendRawByte, appendString. cbn [buffer err].
  unfold renderItem. do 2 f_equal;
    repeat (rewrite <- app_assoc || rewrite <- app_comm_cons); reflexivity.
Qed.

Lemma JSONmarshal_rest_render W l :
  Forall (fun it => W (Value it) = Ret (render (Value it), None)) l ->
  forall w,
    JSONmarshal_rest W l w =
    Ret {| buffer := buffer w ++ commas (map renderItem l); err := err w |}.
Proof.
  induction 1 as [|it l Hit Hl IH]; intros w.
  - cbn [JSONmarshal_rest map commas List.concat]. rewrite app_nil_r.
    destruct w; reflexivity.
  - cbn [JSONmarshal_rest]. rewrite (JSONMapItem_JSONmarshal_render W it _ Hit).
    cbn [bind]. rewrite IH. unfold appendRawByte. cbn [buffer err].
    cbn [map]. rewrite commas_cons. do 2 f_equal;
    repeat (rewrite <- app_assoc || rewrite <- app_comm_cons); reflexivity.
Qed.

Lemma MarshalJSON_render W l :
  Forall (fun it => W (Value it) = Ret (render (Value it), None)) l ->
  MarshalJSON W (Some l) = Ret (render (AMapSlice (Some l)), None).
Proof.
  intros HF. unfold MarshalJSON, JSONMapSlice_JSONmarshal.
  change (render (AMapSlice (Some l)))
    with (123 :: renderSeq (map renderItem l) ++ [125]).
  destruct l as [|it l]; [reflexivity|].
  inversion HF as [|? ? Hit Hl]; subst.
  rewrite (JSONMapItem_JSONmarshal_render W it _ Hit). cbn [bind].
  rewrite (JSONmarshal_rest_render W l Hl). cbn [bind].
  unfold appendRawByte. cbn [buffer err map renderSeq app].
  do 2 f_equal;
    repeat (rewrite <- app_assoc || rewrite <- app_comm_cons); reflexivity.
Qed.

Lemma writeElements_rest W l :
  Forall (fun x => W x = Ret (render x, None)) l ->
  forall acc,
    writeElements W l [44] acc = Ret (acc ++ commas (map render l) ++ [93], None).
Proof.
  induction 1 as [|x l Hx Hl IH]; intros acc; [reflexivity|].
  cbn [writeElements]. rewrite Hx. cbn [bind]. rewrite IH.
  cbn [map]. rewrite commas_cons. do 2 f_equal;
    repeat (rewrite <- app_assoc || rewrite <- app_comm_cons); reflexivity.
Qed.

Lemma WriteJSON_render v : legal v = true -> WriteJSON v = Ret (render v, None).
Proof.
  induction v as [|b|lit|n|s|c|l IH| |l IH|] using any_induction;
    intros HL; try discriminate; try reflexivity.
  - cbn [legal] in HL. rewrite forallb_forall in HL.
    assert (HF : Forall (fun x => WriteJSON x = Ret (render x, None)) l).
    { rewrite Forall_forall in *. intros x Hx. apply IH; auto. }
    cbn [WriteJSON render]. destruct l as [|x l]; [reflexivity|].
    inversion HF as [|? ? Hx Hl]; subst.
    cbn [writeElements]. rewrite Hx. cbn [bind].
    rewrite (writeElements_rest WriteJSON l Hl). cbn [map renderSeq app].
    do 2 f_equal;
    repeat (rewrite <- app_assoc || rewrite <- app_comm_cons); reflexivity.
  - cbn [legal] in HL. rewrite forallb_forall in HL.
    cbn [WriteJSON]. apply MarshalJSON_render.
    rewrite Forall_forall in *. intros it Hit. apply IH; [exact Hit|].
    specialize (HL it Hit). apply andb_true_iff in HL. tauto.
Qed.

(** ** The round trip *)




(** ** The end of the input *)

(** C9, as the code has it.  When [Token] reports [io.EOF] where the loop
    of an object level reads its next token, the level ends with the
    items appended so far and [d.err] as it was; when it reports [io.EOF]
    where [UnmarshalCustomJSON] reads the value of a key, the error is
    stored in [d.err] and the item stays the zero item.  So the encoding
    of an object of the family, cut before its closing brace, is decoded
    without error into the same items as the whole encoding; and cut
    after the colon of one more key, it is decoded into these items and a
    zero item, and [UnmarshalJSON] returns the error [io.EOF]. *)
Theorem C9_end_of_input_in_object :
  (forall fuel data d result t d',
      nextToken d = (t, Some EOF, d') ->
      isDelim t 125 = false ->
      JSONunmarshal_loop (S fuel) data d result = Ret (result, d') /\
      d_err d' = d_err d /\
      (forall key,
          nth_error data (json.InputOffset (decoder d)) = Some 58 ->
          currentToken d = AString key ->
          UnmarshalCustomJSON (S fuel) data d
          = Ret (zeroItem, set_err d' (Some EOF)))) /\
  (forall l fuel,
      legalItems l = true ->
      (need (AMapSlice (Some l)) <= fuel)%nat ->
      exists cut,
        encode (Some l) = Ret (cut ++ [125], None) /\
        decode fuel cut = Ret (Some (map decodedItem l), None) /\
        decode fuel (cut ++ [125]) = decode fuel cut) /\
  (forall l key fuel s,
      legalItems l = true ->
      plainKey key = true ->
      (S (need (AMapSlice (Some l))) <= fuel)%nat ->
      UnmarshalJSON fuel s
        (123 :: renderSeq (map renderItem l ++ [34 :: key ++ [34; 58]]))
      = Ret (Some (map decodedItem l ++ [zeroItem]), Some EOF)).
Proof.
  split; [|split].
  - intros fuel data d result t d' HT Ht. split; [|split].
    + rewrite JSONunmarshal_loop_S, HT, Ht. reflexivity.
    + unfold nextToken in HT. destruct (json.Token (decoder d)) as [[t0 e0] dec].
      inversion HT. reflexivity.
    + intros key Hb Hk. rewrite UnmarshalCustomJSON_S, Hb, Hk, HT. reflexivity.
  - intros l fuel HL Hfuel.
    exists (123 :: renderSeq (map renderItem l)).
    assert (H1 : decode fuel ((123 :: renderSeq (map renderItem l)) ++ [])
                 = Ret (Some (map decodedItem l), None)).
    { apply UnmarshalJSON_encoding; auto. now left. }
    assert (H2 : decode fuel ((123 :: renderSeq (map renderItem l)) ++ [125])
                 = Ret (Some (map decodedItem l), None)).
    { apply UnmarshalJSON_encoding; auto. right. now exists []. }
    rewrite app_nil_r in H1. split; [|split].
    + apply (WriteJSON_render (AMapSlice (Some l)) HL).
    + exact H1.
    + now rewrite H1, H2.
  - intros l key fuel s HL Hk Hfuel. now apply UnmarshalJSON_cut_value.
Qed.

Lemma C9_end_of_input_witness :
  (exists d d',
      JSONunmarshal_loop 1 (js "{'a':1") d [MkItem (bs "a") (AFloat64 (bs "1"))] =
        Ret ([MkItem (bs "a") (AFloat64 (bs "1"))], d') /\
      d_err d' = d_err d) /\
  (exists d d',
      UnmarshalCustomJSON 1 (js "{'a':") d = Ret (zeroItem, d') /\
      d_err d = None /\ d_err d' = Some EOF) /\
  (exists cut,
      encode (Some [MkItem (bs "a") (AInt64 1); MkItem (bs "b") (ASlice [AInt64 2])])
        = Ret (cut ++ [125], None) /\
      decode 12 cut
        = Ret (Some [MkItem (bs "a") (AFloat64 (bs "1"));
                     MkItem (bs "b") (ASlice [AFloat64 (bs "2")])], None) /\
      decode 12 (cut ++ [125]) = decode 12 cut) /\
  UnmarshalJSON 12 None (js "{'a':1,'b':[2],'c':")
  = Ret (Some [MkItem (bs "a") (AFloat64 (bs "1"));
               MkItem (bs "b") (ASlice [AFloat64 (bs "2")]);
               zeroItem], Some EOF).
Proof.
  split; [|split; [|split]].
  - exists {| decoder := {| json.buf := js "{'a':1"; json.scanp := 6; json.derr := None;
                             json.tokState := json.tokenObjectComma;
                             json.tokenStack := [json.tokenTopValue] |};
              currentToken := AFloat64 (bs "1"); d_err := None |}.
    eexists.
    pose proof (proj1 C9_end_of_input_in_object 0%nat (js "{'a':1")
                  {| decoder := {| json.buf := js "{'a':1"; json.scanp := 6;
                                   json.derr := None;
                                   json.tokState := json.tokenObjectComma;
                                   json.tokenStack := [json.tokenTopValue] |};
                     currentToken := AFloat64 (bs "1"); d_err := None |}
                  [MkItem (bs "a") (AFloat64 (bs "1"))] Nil _
                  eq_refl eq_refl) as [H1 [H2 _]].
    split; [exact H1|exact H2].
  - exists {| decoder := {| json.buf := js "{'a':"; json.scanp := 4; json.derr := None;
                             json.tokState := json.tokenObjectColon;
                             json.tokenStack := [json.tokenTopValue] |};
              currentToken := AString (bs "a"); d_err := None |}.
    eexists.
    pose proof (proj1 C9_end_of_input_in_object 0%nat (js "{'a':")
                  {| decoder := {| json.buf := js "{'a':"; json.scanp := 4;
                                   json.derr := None;
                                   json.tokState := json.tokenObjectColon;
                                   json.tokenStack := [json.tokenTopValue] |};
                     currentToken := AString (bs "a"); d_err := None |}
                  [] Nil _ eq_refl eq_refl) as [_ [_ H3]].
    split; [exact (H3 (bs "a") eq_refl eq_refl)|]. split; reflexivity.
  - apply (proj1 (proj2 C9_end_of_input_in_object)
             [MkItem (bs "a") (AInt64 1); MkItem (bs "b") (ASlice [AInt64 2])] 12%nat).
    + reflexivity.
    + vm_compute. lia.
  - apply (proj2 (proj2 C9_end_of_input_in_object)
             [MkItem (bs "a") (AInt64 1); MkItem (bs "b") (ASlice [AInt64 2])]
             (bs "c") 12%nat None).
    + reflexivity.
    + reflexivity.
    + vm_compute. lia.
Defined.

(** C9 as stated fails: the input [{"a":] ends before the closing brace,
    and decode returns the error [io.EOF], with a zero item that no pair
    of the input stands for. *)
Lemma C9_counterexample :
  decode 10 (js "{'a':") = Ret (Some [zeroItem], Some EOF).
Proof. reflexivity. Qed.


(** ** The int64 case of [asInterface] *)

Lemma digits_fold_ge ds a :
  0 <= a -> forallb strconv.isDigit ds = true ->
  a <= fold_left (fun a c => a * 10 + (c - 48)) ds a.
Proof.
  revert a. induction ds as [|c ds IH]; intros a Ha H; cbn [fold_left]; [lia|].
  cbn [forallb] in H. apply andb_true_iff in H. destruct H as [Hc Hds].
  apply isDigit_range in Hc.
  specialize (IH (a * 10 + (c - 48)) ltac:(lia) Hds). lia.
Qed.

Lemma parseDigits_digits ds a :
  0 <= a -> forallb strconv.isDigit ds = true ->
  fold_left (fun a c => a * 10 + (c - 48)) ds a < 2 ^ 64 ->
  strconv.parseDigits ds a = (fold_left (fun a c => a * 10 + (c - 48)) ds a, None).
Proof.
  revert a. induction ds as [|c ds IH]; intros a Ha H Hlt; [reflexivity|].
  cbn [forallb] in H. apply andb_true_iff in H. destruct H as [Hc Hds].
  cbn [strconv.parseDigits fold_left] in *. rewrite Hc.
  pose proof (isDigit_range c Hc) as Hr.
  pose proof (digits_fold_ge ds (a * 10 + (c - 48)) ltac:(lia) Hds) as Hge.
  replace (2 ^ 64 <=? a * 10 + (c - 48)) with false
    by (symmetry; apply Z.leb_gt; lia).
  apply IH; [lia|assumption|assumption].
Qed.

(** [ParseInt] reads back the text that [FormatInt] writes. *)
Lemma ParseInt_FormatInt n :
  - 2 ^ 63 <= n < 2 ^ 63 -> strconv.ParseInt (strconv.FormatInt n) = (n, None).
Proof.
  intros Hn.
  destruct (FormatInt_digits n Hn) as (d & ds & Heq & Hdig & Hval & _ & _).
  assert (Hd : 48 <= d <= 57).
  { cbn [forallb] in Hdig. apply andb_true_iff in Hdig. destruct Hdig as [H _].
    now apply isDigit_range in H. }
  assert (H63 : 2 ^ 63 < 2 ^ 64) by (vm_compute; reflexivity).
  assert (Hparse : strconv.ParseUint (d :: ds) = (Z.abs n, None)).
  { unfold strconv.ParseUint. unfold digitsVal in Hval.
    rewrite parseDigits_digits; [now rewrite Hval|lia|assumption|].
    rewrite Hval. lia. }
  rewrite Heq. unfold strconv.ParseInt. destruct (n <? 0) eqn:Hneg.
  - apply Z.ltb_lt in Hneg. cbn [app]. change (45 =? 45) with true.
    change (45 =? 43) with false. cbn [orb]. rewrite Hparse. cbn [negb andb].
    replace (2 ^ 63 <? Z.abs n) with false by (symmetry; apply Z.ltb_ge; lia).
    f_equal. lia.
  - apply Z.ltb_ge in Hneg. cbn [app].
    replace (d =? 45) with false by (symmetry; apply Z.eqb_neq; lia).
    replace (d =? 43) with false by (symmetry; apply Z.eqb_neq; lia).
    cbn [orb]. rewrite Hparse. cbn [negb andb].
    replace (2 ^ 63 <=? Z.abs n) with false by (symmetry; apply Z.leb_gt; lia).
    f_equal. lia.
Qed.

Lemma ContainsRune_digits ds :
  forallb strconv.isDigit ds = true -> ContainsRune ds 46 = false.
Proof.
  induction ds as [|c ds IH]; intros H; [reflexivity|].
  cbn [forallb] in H. apply andb_true_iff in H. destruct H as [Hc Hds].
  apply isDigit_range in Hc. unfold ContainsRune in *. cbn [existsb].
  replace (46 =? c) with false by (symmetry; apply Z.eqb_neq; lia).
  now apply IH.
Qed.

(** X5: the policy of the int64 case: the decimal text of an int64 holds
    no point and is parsed back to the same number, so an int64 token is
    kept as the same integer and the decoder is not touched.  No token of
    [encoding/json] reaches this case ([Token_not_int64]). *)
Lemma asInterface_int64 fuel data d n :
  currentToken d = AInt64 n ->
  - 2 ^ 63 <= n < 2 ^ 63 ->
  asInterface (S fuel) data d = Ret (AInt64 n, d).
Proof.
  intros Ht Hn. rewrite asInterface_S, Ht. cbv zeta.
  rewrite ParseInt_FormatInt by assumption.
  destruct (FormatInt_digits n Hn) as (d0 & ds & Heq & Hdig & _).
  replace (ContainsRune (strconv.FormatInt n) 46) with false; [reflexivity|].
  rewrite Heq. symmetry. destruct (n <? 0); cbn [app].
  - change (ContainsRune (45 :: d0 :: ds) 46)
      with ((46 =? 45) || ContainsRune (d0 :: ds) 46).
    now rewrite ContainsRune_digits.
  - now apply ContainsRune_digits.
Qed.

(** * Further properties of the encoder *)

Lemma JSONMapItem_JSONmarshal_bytes W it jb b :
  W (Value it) = Ret (b, None) ->
  JSONMapItem_JSONmarshal W it jb =
  Ret {| buffer := buffer jb ++ 34 :: Key it ++ 34 :: 58 :: b; err := err jb |}.
Proof.
  intros HW. unfold JSONMapItem_JSONmarshal. rewrite HW. cbn [bind].
  unfold appendByteSlice, appendRawByte, appendString. cbn [buffer err].
  do 2 f_equal;
    repeat (rewrite <- app_assoc || rewrite <- app_comm_cons); reflexivity.
Qed.

Lemma JSONmarshal_rest_bytes W out l :
  Forall (fun it => W (Value it) = Ret (out it, None)) l ->
  forall w,
    JSONmarshal_rest W l w =
    Ret {| buffer := buffer w
                     ++ commas (map (fun it => 34 :: Key it ++ 34 :: 58 :: out it) l);
           err := err w |}.
Proof.
  induction 1 as [|it l Hit Hl IH]; intros w.
  - cbn [JSONmarshal_rest map commas List.concat]. rewrite app_nil_r.
    destruct w; reflexivity.
  - cbn [JSONmarshal_rest]. rewrite (JSONMapItem_JSONmarshal_bytes W it _ _ Hit).
    cbn [bind]. rewrite IH. unfold appendRawByte. cbn [buffer err].
    cbn [map]. rewrite commas_cons.
    do 2 f_equal;
      repeat (rewrite <- app_assoc || rewrite <- app_comm_cons); reflexivity.
Qed.

(** X1: whatever the leaf writer, when it succeeds on every value, the
    encoding of a non-nil [JSONMapSlice] is an opening brace, the items in
    their stored order, each as its key between quotation marks, a colon
    and the bytes of its value, with one comma between two items, and a
    closing brace; no error is returned. *)
Theorem MarshalJSON_layout :
  forall W out l,
    Forall (fun it => W (Value it) = Ret (out it, None)) l ->
    MarshalJSON W (Some l) =
    Ret (123 :: renderSeq (map (fun it => 34 :: Key it ++ 34 :: 58 :: out it) l)
             ++ [125], None).
Proof.
  intros W out l HF. unfold MarshalJSON, JSONMapSlice_JSONmarshal.
  destruct l as [|it l]; [reflexivity|].
  inversion HF as [|? ? Hit Hl]; subst.
  rewrite (JSONMapItem_JSONmarshal_bytes W it _ _ Hit). cbn [bind].
  rewrite (JSONmarshal_rest_bytes W out l Hl). cbn [bind].
  unfold appendRawByte. cbn [buffer err map renderSeq app].
  do 2 f_equal;
    repeat (rewrite <- app_assoc || rewrite <- app_comm_cons); reflexivity.
Qed.

Lemma MarshalJSON_layout_witness :
  MarshalJSON WriteJSON
    (Some [MkItem (bs "b") (AInt64 1); MkItem (bs "a") Nil; MkItem (bs "b") (ABool true)])
  = Ret (js "{'b':1,'a':null,'b':true}", None).
Proof.
  apply (MarshalJSON_layout WriteJSON
           (fun it => match WriteJSON (Value it) with Ret (b, _) => b | _ => [] end)
           [MkItem (bs "b") (AInt64 1); MkItem (bs "a") Nil; MkItem (bs "b") (ABool true)]).
  repeat constructor.
Defined.

Lemma JSONMapItem_JSONmarshal_err W it jb jb' :
  JSONMapItem_JSONmarshal W it jb = Ret jb' -> err jb' = err jb.
Proof.
  unfold JSONMapItem_JSONmarshal.
  destruct (W (Value it)) as [[b [e|]]| | |]; cbn [bind]; try discriminate.
  intros H. inversion H. reflexivity.
Qed.

Lemma JSONmarshal_rest_err W l :
  forall w w', JSONmarshal_rest W l w = Ret w' -> err w' = err w.
Proof.
  induction l as [|it l IH]; intros w w' H; cbn [JSONmarshal_rest] in H.
  - inversion H. reflexivity.
  - destruct (JSONMapItem_JSONmarshal W it (appendRawByte w 44)) as [w1| | |] eqn:E;
      cbn [bind] in H; try discriminate.
    rewrite (IH _ _ H). apply JSONMapItem_JSONmarshal_err in E. exact E.
Qed.

(** X2: the error that [MarshalJSON] returns is always nil: nothing sets
    the [err] field of the buffer, and a value that cannot be written
    ends the process instead. *)
Theorem MarshalJSON_error_is_nil :
  forall W s b e, MarshalJSON W s = Ret (b, e) -> e = None.
Proof.
  intros W s b e. unfold MarshalJSON, JSONMapSlice_JSONmarshal.
  destruct s as [[|it l]|]; cbn [bind].
  - intros H. inversion H. reflexivity.
  - destruct (JSONMapItem_JSONmarshal W it _) as [w1| | |] eqn:E1;
      cbn [bind]; try discriminate.
    destruct (JSONmarshal_rest W l w1) as [w2| | |] eqn:E2;
      cbn [bind]; try discriminate.
    intros H. inversion H. cbn [err appendRawByte].
    rewrite (JSONmarshal_rest_err W l _ _ E2).
    now rewrite (JSONMapItem_JSONmarshal_err W it _ _ E1).
  - intros H. inversion H. reflexivity.
Qed.

Lemma MarshalJSON_error_is_nil_witness :
  MarshalJSON WriteJSON (Some [MkItem (bs "a") (ASlice [AInt64 1; AString (bs "x")])])
    = Ret (js "{'a':[1,'x']}", None) /\
  @None error = None.
Proof.
  split; [reflexivity|].
  apply (MarshalJSON_error_is_nil WriteJSON
           (Some [MkItem (bs "a") (ASlice [AInt64 1; AString (bs "x")])])
           (js "{'a':[1,'x']}") None).
  reflexivity.
Defined.

Lemma JSONmarshal_rest_fatal W l1 it l2 b e :
  Forall (fun x => exists bx, W (Value x) = Ret (bx, None)) l1 ->
  W (Value it) = Ret (b, Some e) ->
  forall w, JSONmarshal_rest W (l1 ++ it :: l2) w = Fatal.
Proof.
  intros HF Hit. induction HF as [|x l1 [bx Hx] Hl1 IH]; intros w.
  - cbn [app JSONmarshal_rest]. unfold JSONMapItem_JSONmarshal. now rewrite Hit.
  - cbn [app JSONmarshal_rest].
    rewrite (JSONMapItem_JSONmarshal_bytes W x _ _ Hx). cbn [bind]. apply IH.
Qed.

(** X3: when the leaf writer reports an error for the value of an item,
    the values before it being written, [MarshalJSON] returns neither
    bytes nor an error: the encoder ends the process ([log.Fatal]). *)
Theorem MarshalJSON_fatal_on_leaf_error :
  forall W l1 it l2 b e,
    Forall (fun x => exists bx, W (Value x) = Ret (bx, None)) l1 ->
    W (Value it) = Ret (b, Some e) ->
    MarshalJSON W (Some (l1 ++ it :: l2)) = Fatal.
Proof.
  intros W l1 it l2 b e HF Hit. unfold MarshalJSON, JSONMapSlice_JSONmarshal.
  destruct l1 as [|x l1]; cbn [app].
  - unfold JSONMapItem_JSONmarshal. now rewrite Hit.
  - inversion HF as [|? ? [bx Hx] Hl1]; subst.
    rewrite (JSONMapItem_JSONmarshal_bytes W x _ _ Hx). cbn [bind].
    now rewrite (JSONmarshal_rest_fatal W l1 it l2 b e Hl1 Hit).
Qed.

Lemma MarshalJSON_fatal_witness :
  MarshalJSON WriteJSON
    (Some ([MkItem (bs "a") (AInt64 1)] ++ MkItem (bs "b") AOther :: [MkItem (bs "c") Nil]))
  = Fatal.
Proof.
  apply (MarshalJSON_fatal_on_leaf_error WriteJSON
           [MkItem (bs "a") (AInt64 1)] (MkItem (bs "b") AOther)
           [MkItem (bs "c") Nil] [] UnsupportedTypeError).
  - repeat constructor. eexists. reflexivity.
  - reflexivity.
Defined.

(** * Further properties of the decoder *)

(** ** The values that decoding yields *)

Lemma literalInterface_isToken item :
  isToken (fst (json.literalInterface item)) = true.
Proof.
  unfold json.literalInterface. destruct item as [|c r]; [reflexivity|].
  repeat (match goal with
          | |- context [if ?b then _ else _] => destruct b
          | |- context [match ?o with Some _ => _ | None => _ end] => destruct o
          end; try reflexivity).
Qed.

Lemma Decode_isToken dec : isToken (fst (fst (json.Decode dec))) = true.
Proof.
  unfold json.Decode.
  destruct (json.derr dec); [reflexivity|].
  destruct (json.tokenPrepareForDecode dec) as [[e|] d']; [reflexivity|].
  destruct (negb (json.tokenValueAllowed d')); [reflexivity|].
  destruct (json.readValue d') as [n|e]; [|reflexivity].
  pose proof (literalInterface_isToken
                (firstn n (skipn (json.scanp d') (json.buf d')))) as H.
  destruct (json.literalInterface _) as [x e]. exact H.
Qed.

Lemma Token_body_isToken k dec :
  (forall d, isToken (fst (fst (k d))) = true) ->
  isToken (fst (fst (json.Token_body k dec))) = true.
Proof.
  intros Hk. unfold json.Token_body.
  destruct (json.peek dec) as [[c|e] d']; try reflexivity;
    repeat (match goal with |- context [if ?b then _ else _] => destruct b end;
            try reflexivity; try apply Hk);
    match goal with
    | |- context [json.Decode ?d] =>
        pose proof (Decode_isToken d) as H;
        destruct (json.Decode d) as [[x [e|]] d'']; [reflexivity|exact H]
    end.
Qed.

Lemma Token_isToken dec : isToken (fst (fst (json.Token dec))) = true.
Proof.
  unfold json.Token. cbn [json.Token_loop].
  apply Token_body_isToken. intros d. apply Token_body_isToken. reflexivity.
Qed.

Lemma nextToken_isToken d t e d' :
  nextToken d = (t, e, d') -> isToken t = true.
Proof.
  unfold nextToken. pose proof (Token_isToken (decoder d)) as H.
  destruct (json.Token (decoder d)) as [[t0 e0] dec]. intros E. inversion E; subst.
  exact H.
Qed.

Lemma forallb_snoc {A} (f : A -> bool) l x :
  forallb f l = true -> f x = true -> forallb f (l ++ [x]) = true.
Proof. intros Hl Hx. rewrite forallb_app, Hl. cbn. now rewrite Hx. Qed.

(** The four pieces of the decoder, at every fuel: what they return is
    made of decoder values. *)
Lemma decoder_values fuel :
  (forall data d result r d',
      JSONunmarshal_loop fuel data d result = Ret (r, d') ->
      forallb decoderItem result = true -> forallb decoderItem r = true) /\
  (forall data d mi d',
      UnmarshalCustomJSON fuel data d = Ret (mi, d') -> decoderItem mi = true) /\
  (forall data d x d',
      asInterface fuel data d = Ret (x, d') ->
      isToken (currentToken d) = true -> decoderValue x = true) /\
  (forall data d ret x d',
      asInterface_array fuel data d ret = Ret (x, d') ->
      forallb decoderValue ret = true -> decoderValue x = true).
Proof.
  induction fuel as [|fuel (IHloop & IHitem & IHval & IHarr)].
  { repeat split; intros; discriminate. }
  split; [|split; [|split]].
  - intros data d result r d' H Hres. rewrite JSONunmarshal_loop_S in H.
    destruct (nextToken d) as [[t e] d1].
    destruct (isDelim t 125); [inversion H; subst; exact Hres|].
    destruct (is_EOF e); [inversion H; subst; exact Hres|].
    cbv zeta in H.
    destruct (UnmarshalCustomJSON fuel data (set_currentToken d1 t))
      as [[mi d2]| | |] eqn:E; cbn [bind] in H; try discriminate.
    apply (IHloop _ _ _ _ _ H). apply forallb_snoc; [exact Hres|].
    apply (IHitem _ _ _ _ E).
  - intros data d mi d' H. rewrite UnmarshalCustomJSON_S in H.
    destruct (nth_error data _) as [b|]; [|discriminate].
    destruct (b =? 58); [|inversion H; reflexivity].
    destruct (currentToken d) as [| | | |key| | | |]; try discriminate.
    destruct (nextToken d) as [[t e] d1] eqn:ET.
    destruct e as [e|]; [inversion H; reflexivity|].
    cbv zeta in H.
    destruct (asInterface fuel data (set_currentToken d1 t)) as [[x d2]| | |] eqn:E;
      cbn [bind] in H; try discriminate.
    inversion H; subst. unfold decoderItem. cbn [Value].
    apply (IHval _ _ _ _ E). cbn [currentToken set_currentToken].
    apply (nextToken_isToken _ _ _ _ ET).
  - intros data d x d' H Ht. rewrite asInterface_S in H.
    destruct (currentToken d) as [|b|lit|n|s|c|l|o|]; try discriminate;
      try (inversion H; subst; reflexivity).
    destruct (c =? 123).
    + destruct (JSONunmarshal_loop fuel data d []) as [[ret d2]| | |] eqn:E;
        cbn [bind] in H; try discriminate.
      inversion H; subst. cbn [decoderValue].
      apply (IHloop _ _ _ _ _ E). reflexivity.
    + destruct (c =? 91); [|inversion H; reflexivity].
      apply (IHarr _ _ _ _ _ H). reflexivity.
  - intros data d ret x d' H Hret. rewrite asInterface_array_S in H.
    destruct (json.More (decoder d)) as [more dec]. cbv zeta in H.
    destruct more.
    + destruct (nextToken (set_decoder d dec)) as [[t e] d1] eqn:ET.
      destruct e as [e|]; [inversion H; reflexivity|].
      cbv zeta in H.
      destruct (asInterface fuel data (set_currentToken d1 t)) as [[y d2]| | |] eqn:E;
        cbn [bind] in H; try discriminate.
      apply (IHarr _ _ _ _ _ H). apply forallb_snoc; [exact Hret|].
      apply (IHval _ _ _ _ E). cbn [currentToken set_currentToken].
      apply (nextToken_isToken _ _ _ _ ET).
    + destruct (nextToken (set_decoder d dec)) as [[t e] d1].
      destruct e as [e|]; inversion H; subst; [reflexivity|exact Hret].
Qed.

(** X4: whatever the input, when [UnmarshalJSON] has read the opening
    brace and returns, the receiver is a non-nil [JSONMapSlice] whose
    values, at every depth, are nil, booleans, float64 numbers, texts,
    slices and non-nil [JSONMapSlice]s: never an int64, a delimiter or a
    nil slice.  Otherwise the receiver is left as it was. *)
Theorem UnmarshalJSON_values :
  forall fuel s data r e,
    UnmarshalJSON fuel s data = Ret (r, e) ->
    r = s \/ exists l, r = Some l /\ decoderValue (AMapSlice (Some l)) = true.
Proof.
  intros fuel s data r e H. unfold UnmarshalJSON in H.
  destruct (nextToken _) as [[t e0] d1].
  destruct (is_EOF e0); [inversion H; auto|].
  destruct t as [| | | | |c| | |]; try (inversion H; auto; fail).
  destruct (negb (c =? 123)); [inversion H; auto|].
  unfold JSONunmarshal in H.
  destruct (JSONunmarshal_loop fuel data d1 []) as [[l d2]| | |] eqn:E;
    cbn [bind] in H; try discriminate.
  inversion H; subst. right. exists l. split; [reflexivity|].
  cbn [decoderValue].
  destruct (decoder_values fuel) as (Hloop & _).
  apply (Hloop _ _ _ _ _ E). reflexivity.
Qed.

Lemma UnmarshalJSON_values_witness :
  UnmarshalJSON 10 None (js "{'a':[1,{'b':null}],'c' :2}")
    = Ret (Some [MkItem (bs "a")
                   (ASlice [AFloat64 (bs "1"); AMapSlice (Some [MkItem (bs "b") Nil])]);
                 zeroItem; zeroItem], None) /\
  (Some [MkItem (bs "a")
           (ASlice [AFloat64 (bs "1"); AMapSlice (Some [MkItem (bs "b") Nil])]);
         zeroItem; zeroItem] = None \/
   exists l,
     Some [MkItem (bs "a")
             (ASlice [AFloat64 (bs "1"); AMapSlice (Some [MkItem (bs "b") Nil])]);
           zeroItem; zeroItem] = Some l /\
     decoderValue (AMapSlice (Some l)) = true).
Proof.
  split; [reflexivity|].
  apply (UnmarshalJSON_values 10 None (js "{'a':[1,{'b':null}],'c' :2}") _ None).
  reflexivity.
Defined.

Lemma asInterface_int64_witness :
  asInterface 1 [] {| decoder := json.NewDecoder []; currentToken := AInt64 (-42);
                      d_err := None |}
  = Ret (AInt64 (-42), {| decoder := json.NewDecoder []; currentToken := AInt64 (-42);
                          d_err := None |}).
Proof.
  apply (asInterface_int64 0 [] _ (-42)); [reflexivity|].
  split; [apply Z.leb_le|apply Z.ltb_lt]; reflexivity.
Defined.

(** ** Bytes around the object *)

(** X6: the bytes that follow the closing brace of the top-level object
    are not looked at: the encoding of an object of the family, followed
    by any bytes, is decoded without error into the same items as the
    encoding alone. *)
Theorem decode_ignores_trailing_bytes :
  forall l fuel junk,
    legalItems l = true ->
    (need (AMapSlice (Some l)) <= fuel)%nat ->
    exists data,
      encode (Some l) = Ret (data, None) /\
      decode fuel (data ++ junk) = Ret (Some (map decodedItem l), None) /\
      decode fuel data = Ret (Some (map decodedItem l), None).
Proof.
  intros l fuel junk HL Hfuel.
  exists (123 :: renderSeq (map renderItem l) ++ [125]). split; [|split].
  - apply (WriteJSON_render (AMapSlice (Some l)) HL).
  - replace ((123 :: renderSeq (map renderItem l) ++ [125]) ++ junk)
      with (123 :: renderSeq (map renderItem l) ++ 125 :: junk)
      by (cbn [app]; now rewrite <- app_assoc).
    apply UnmarshalJSON_encoding; auto. right. now exists junk.
  - apply UnmarshalJSON_encoding; auto. right. now exists [].
Qed.

Lemma decode_ignores_trailing_bytes_witness :
  exists data,
    encode (Some [MkItem (bs "a") (AInt64 1)]) = Ret (data, None) /\
    decode 5 (data ++ bs "]garbage{") = Ret (Some [MkItem (bs "a") (AFloat64 (bs "1"))], None) /\
    decode 5 data = Ret (Some [MkItem (bs "a") (AFloat64 (bs "1"))], None).
Proof.
  apply (decode_ignores_trailing_bytes [MkItem (bs "a") (AInt64 1)] 5 (bs "]garbage{")).
  - reflexivity.
  - vm_compute. lia.
Defined.

Lemma skipSpace_spaces rest i :
  forallb json.isSpace rest = true -> json.skipSpace rest i = None.
Proof.
  revert i. induction rest as [|c rest IH]; intros i H; [reflexivity|].
  cbn [forallb] in H. apply andb_true_iff in H. destruct H as [Hc Hr].
  cbn [json.skipSpace]. rewrite Hc. apply IH, Hr.
Qed.

(** X8: an input made of white space only (spaces, tabs, carriage returns
    and line feeds), of any length, is decoded without error, and the
    receiver is left as it was. *)
Theorem UnmarshalJSON_white_space_only :
  forall fuel s data,
    forallb json.isSpace data = true ->
    UnmarshalJSON fuel s data = Ret (s, None).
Proof.
  intros fuel s data H. unfold UnmarshalJSON, nextToken, json.Token.
  cbn [decoder json.Token_loop]. unfold json.Token_body at 1, json.peek.
  cbn [json.NewDecoder json.scanp json.buf skipn].
  rewrite (skipSpace_spaces data 0 H). reflexivity.
Qed.

Lemma UnmarshalJSON_white_space_only_witness :
  UnmarshalJSON 3 (Some [MkItem (bs "k") Nil]) [32; 9; 13; 10; 32]
  = Ret (Some [MkItem (bs "k") Nil], None).
Proof.
  apply (UnmarshalJSON_white_space_only 3 (Some [MkItem (bs "k") Nil]) [32; 9; 13; 10; 32]).
  reflexivity.
Defined.

(** ** The error field *)

(** The four pieces of the decoder, at every fuel: an error stored in
    [d.err] is still there when they return. *)
Lemma decoder_keeps_error fuel :
  (forall data d result r d',
      JSONunmarshal_loop fuel data d result = Ret (r, d') ->
      d_err d <> None -> d_err d' <> None) /\
  (forall data d mi d',
      UnmarshalCustomJSON fuel data d = Ret (mi, d') ->
      d_err d <> None -> d_err d' <> None) /\
  (forall data d x d',
      asInterface fuel data d = Ret (x, d') ->
      d_err d <> None -> d_err d' <> None) /\
  (forall data d ret x d',
      asInterface_array fuel data d ret = Ret (x, d') ->
      d_err d <> None -> d_err d' <> None).
Proof.
  assert (Hnext : forall d t e d1,
             nextToken d = (t, e, d1) -> d_err d1 = d_err d).
  { intros d t e d1 H. unfold nextToken in H.
    destruct (json.Token (decoder d)) as [[t0 e0] dec]. inversion H. reflexivity. }
  induction fuel as [|fuel (IHloop & IHitem & IHval & IHarr)].
  { repeat split; intros; discriminate. }
  split; [|split; [|split]].
  - intros data d result r d' H Herr. rewrite JSONunmarshal_loop_S in H.
    destruct (nextToken d) as [[t e] d1] eqn:ET. apply Hnext in ET.
    destruct (isDelim t 125); [inversion H; subst; congruence|].
    destruct (is_EOF e); [inversion H; subst; congruence|].
    cbv zeta in H.
    destruct (UnmarshalCustomJSON fuel data (set_currentToken d1 t))
      as [[mi d2]| | |] eqn:E; cbn [bind] in H; try discriminate.
    apply (IHloop _ _ _ _ _ H). apply (IHitem _ _ _ _ E).
    cbn [d_err set_currentToken]. congruence.
  - intros data d mi d' H Herr. rewrite UnmarshalCustomJSON_S in H.
    destruct (nth_error data _) as [b|]; [|discriminate].
    destruct (b =? 58); [|inversion H; subst; exact Herr].
    destruct (currentToken d) as [| | | |key| | | |]; try discriminate.
    destruct (nextToken d) as [[t e] d1] eqn:ET. apply Hnext in ET.
    destruct e as [e|]; [inversion H; discriminate|].
    cbv zeta in H.
    destruct (asInterface fuel data (set_currentToken d1 t)) as [[x d2]| | |] eqn:E;
      cbn [bind] in H; try discriminate.
    inversion H; subst. apply (IHval _ _ _ _ E).
    cbn [d_err set_currentToken]. congruence.
  - intros data d x d' H Herr. rewrite asInterface_S in H.
    destruct (currentToken d) as [|b|lit|n|s|c|l|o|];
      try (inversion H; subst; exact Herr).
    + cbv zeta in H. destruct (ContainsRune _ _); inversion H; subst; exact Herr.
    + destruct (c =? 123).
      * destruct (JSONunmarshal_loop fuel data d []) as [[ret d2]| | |] eqn:E;
          cbn [bind] in H; try discriminate.
        inversion H; subst. apply (IHloop _ _ _ _ _ E Herr).
      * destruct (c =? 91); [|inversion H; subst; exact Herr].
        apply (IHarr _ _ _ _ _ H Herr).
  - intros data d ret x d' H Herr. rewrite asInterface_array_S in H.
    destruct (json.More (decoder d)) as [more dec]. cbv zeta in H.
    destruct more.
    + destruct (nextToken (set_decoder d dec)) as [[t e] d1] eqn:ET.
      apply Hnext in ET.
      destruct e as [e|]; [inversion H; discriminate|].
      cbv zeta in H.
      destruct (asInterface fuel data (set_currentToken d1 t)) as [[y d2]| | |] eqn:E;
        cbn [bind] in H; try discriminate.
      apply (IHarr _ _ _ _ _ H). apply (IHval _ _ _ _ E).
      cbn [d_err set_currentToken set_decoder] in *. congruence.
    + destruct (nextToken (set_decoder d dec)) as [[t e] d1] eqn:ET.
      apply Hnext in ET.
      destruct e as [e|]; inversion H; subst; [discriminate|].
      cbn [d_err set_decoder] in ET. congruence.
Qed.

(** X7: an error stored in [d.err] is never cleared.  When the loop of
    [JSONunmarshal] returns from a decoder that holds an error, the
    decoder still holds one, so that [UnmarshalJSON] then returns an
    error; the same for an item, a value and the elements of an array. *)
Theorem decoder_error_is_kept :
  forall fuel data d,
    d_err d <> None ->
    (forall result r d',
        JSONunmarshal_loop fuel data d result = Ret (r, d') -> d_err d' <> None) /\
    (forall mi d',
        UnmarshalCustomJSON fuel data d = Ret (mi, d') -> d_err d' <> None) /\
    (forall x d', asInterface fuel data d = Ret (x, d') -> d_err d' <> None) /\
    (forall ret x d',
        asInterface_array fuel data d ret = Ret (x, d') -> d_err d' <> None).
Proof.
  intros fuel data d Herr.
  destruct (decoder_keeps_error fuel) as (H1 & H2 & H3 & H4).
  repeat split; intros; eauto.
Qed.

Lemma decoder_error_is_kept_witness :
  exists r d',
    JSONunmarshal_loop 5 (js "{'a':1e999,'b':2}")
      {| decoder := mkDec (js "{'a':1e999,'b':2}") 10 json.tokenObjectComma
                      [json.tokenTopValue];
         currentToken := Nil;
         d_err := Some (UnmarshalTypeError (bs "1e999")) |} [zeroItem]
    = Ret (r, d') /\
    r = [zeroItem; MkItem (bs "b") (AFloat64 (bs "2"))] /\
    d_err d' <> None.
Proof.
  do 2 eexists. split; [reflexivity|]. split; [reflexivity|].
  refine (proj1 (decoder_error_is_kept 5 (js "{'a':1e999,'b':2}")
                   {| decoder := mkDec (js "{'a':1e999,'b':2}") 10 json.tokenObjectComma
                                   [json.tokenTopValue];
                      currentToken := Nil;
                      d_err := Some (UnmarshalTypeError (bs "1e999")) |} _)
                [zeroItem] _ _ eq_refl).
  discriminate.
Defined.

(** ** White space before the object *)

Lemma skipSpace_app ws c rest i :
  forallb json.isSpace ws = true ->
  json.isSpace c = false ->
  json.skipSpace (ws ++ c :: rest) i = Some (c, (i + List.length ws)%nat).
Proof.
  revert i. induction ws as [|w ws IH]; intros i H Hc.
  - cbn [app json.skipSpace List.length]. rewrite Hc. f_equal. f_equal. lia.
  - cbn [forallb] in H. apply andb_true_iff in H. destruct H as [Hw Hws].
    cbn [app json.skipSpace List.length]. rewrite Hw.
    rewrite (IH (S i) Hws Hc). do 2 f_equal. lia.
Qed.

(** [Token] skips the white space in front of the next token. *)
Lemma Token_body_skip_space k data pos st stk ws c rest :
  skipn pos data = ws ++ c :: rest ->
  forallb json.isSpace ws = true ->
  json.isSpace c = false ->
  json.Token_body k (mkDec data pos st stk)
  = json.Token_body k (mkDec data (pos + List.length ws) st stk).
Proof.
  intros Hskip Hws Hc. unfold json.Token_body.
  rewrite (peek_at data (pos + List.length ws) st stk c rest
             (skipn_shift _ _ _ _ Hskip) Hc).
  unfold json.peek. cbn [mkDec json.scanp json.buf]. rewrite Hskip.
  rewrite (skipSpace_app ws c rest pos Hws Hc). reflexivity.
Qed.

(** X9: white space in front of the opening brace is skipped: the
    encoding of an object of the family, with white space before it, is
    decoded without error into the same items as the encoding alone. *)
Theorem decode_skips_leading_white_space :
  forall l fuel ws,
    legalItems l = true ->
    (need (AMapSlice (Some l)) <= fuel)%nat ->
    forallb json.isSpace ws = true ->
    exists data,
      encode (Some l) = Ret (data, None) /\
      decode fuel (ws ++ data) = Ret (Some (map decodedItem l), None).
Proof.
  intros l fuel ws HL Hfuel Hws.
  exists (123 :: renderSeq (map renderItem l) ++ [125]).
  split; [apply (WriteJSON_render (AMapSlice (Some l)) HL)|].
  unfold legalItems in HL.
  set (data := ws ++ 123 :: renderSeq (map renderItem l) ++ [125]).
  assert (Hdata : skipn 0 data = ws ++ 123 :: renderSeq (map renderItem l) ++ [125])
    by reflexivity.
  pose proof (skipn_shift _ _ _ _ Hdata) as Hbrace. cbn [Nat.add] in Hbrace.
  assert (HF : Forall (fun it => decodes (Value it)) l).
  { cbn [legal] in HL. rewrite forallb_forall in HL. rewrite Forall_forall.
    intros it Hit. apply legal_decodes. specialize (HL it Hit).
    apply andb_true_iff in HL. tauto. }
  cbn [need] in Hfuel.
  destruct (JSONunmarshal_loop_first l HF HL fuel data (S (List.length ws))
              json.tokenTopValue [] [125]
              {| decoder := mkDec data (S (List.length ws)) json.tokenObjectStart
                              [json.tokenTopValue];
                 currentToken := Nil; d_err := None |}
              (or_intror (ex_intro _ [] eq_refl))
              (skipn_next _ _ _ _ Hbrace) eq_refl ltac:(lia))
    as (d2 & HLoop & _ & Herr).
  unfold decode, UnmarshalJSON, nextToken. cbn [decoder].
  change (json.NewDecoder data) with (mkDec data 0 json.tokenTopValue []).
  unfold json.Token. rewrite Token_loop_unfold.
  rewrite (Token_body_skip_space _ data 0 json.tokenTopValue [] ws 123 _
             Hdata Hws eq_refl).
  cbn [Nat.add].
  rewrite (Token_body_open _ data (List.length ws) json.tokenTopValue [] 123 _ Hbrace
             (or_intror eq_refl) eq_refl).
  change (123 =? 91) with false. cbv iota. cbn [is_EOF set_decoder].
  change (negb (123 =? 123)) with false. cbv iota.
  unfold JSONunmarshal, set_decoder. cbn [currentToken d_err].
  rewrite HLoop. cbn [bind]. now rewrite Herr.
Qed.

Lemma decode_skips_leading_white_space_witness :
  exists data,
    encode (Some [MkItem (bs "a") (AInt64 1)]) = Ret (data, None) /\
    decode 5 ([32; 10; 9] ++ data) = Ret (Some [MkItem (bs "a") (AFloat64 (bs "1"))], None).
Proof.
  apply (decode_skips_leading_white_space [MkItem (bs "a") (AInt64 1)] 5 [32; 10; 9]).
  - reflexivity.
  - vm_compute. lia.
  - reflexivity.
Defined.

(** ** Inputs on which decoding does not return *)

(** After the opening brace, a byte that is neither white space, nor a
    quotation mark, a closing brace or a colon is a syntax error of
    [Token], which stays at that byte. *)
Lemma Token_bad_key_start data c rest stk :
  skipn 1 data = c :: rest ->
  json.isSpace c = false ->
  c <> 34 -> c <> 125 ->
  json.Token (mkDec data 1 json.tokenObjectStart stk)
  = (Nil, Some (SyntaxError c 1), mkDec data 1 json.tokenObjectStart stk).
Proof.
  intros Hskip Hsp H34 H125. unfold json.Token. rewrite Token_loop_unfold.
  unfold json.Token_body. rewrite (peek_at data 1 _ stk c rest Hskip Hsp).
  replace (c =? 34) with false by (symmetry; apply Z.eqb_neq; lia).
  replace (c =? 125) with false by (symmetry; apply Z.eqb_neq; lia).
  cbn [mkDec json.tokState json.tokenState_eqb json.tokenValueAllowed negb andb orb].
  destruct (c =? 91); [reflexivity|].
  destruct (c =? 93); [reflexivity|].
  destruct (c =? 123); [reflexivity|].
  destruct (c =? 58); [reflexivity|].
  destruct (c =? 44); reflexivity.
Qed.

(** X10: when the byte after the opening brace does not start a key and
    is not the closing brace (it is neither white space, nor a quotation
    mark, a closing brace or a colon), [UnmarshalJSON] does not return,
    whatever follows: the loop appends zero items for ever. *)
Theorem UnmarshalJSON_spins_without_key :
  forall c rest s fuel,
    json.isSpace c = false ->
    c <> 34 -> c <> 125 -> c <> 58 ->
    UnmarshalJSON fuel s (123 :: c :: rest) = OutOfFuel.
Proof.
  intros c rest s fuel Hsp H34 H125 H58. revert fuel.
  set (data := 123 :: c :: rest).
  apply (UnmarshalJSON_never_returns_from data s
           {| decoder := mkDec data 1 json.tokenObjectStart [json.tokenTopValue];
              currentToken := Nil; d_err := None |}).
  - unfold nextToken. cbn [decoder].
    change (json.NewDecoder data) with (mkDec data 0 json.tokenTopValue []).
    unfold json.Token. rewrite Token_loop_unfold.
    rewrite (Token_body_open _ data 0 json.tokenTopValue [] 123 (c :: rest) eq_refl
               (or_intror eq_refl) eq_refl).
    reflexivity.
  - intros fuel.
    apply (JSONunmarshal_loop_spins fuel data _ [] (SyntaxError c 1) c).
    + cbn [decoder]. apply (Token_bad_key_start data c rest); auto.
    + reflexivity.
    + reflexivity.
    + apply Z.eqb_neq. exact H58.
Qed.

Lemma UnmarshalJSON_spins_without_key_witness :
  UnmarshalJSON 1000 None (js "{1:2}") = OutOfFuel.
Proof.
  apply (UnmarshalJSON_spins_without_key 49 (bs ":2}") None 1000);
    [reflexivity|discriminate|discriminate|discriminate].
Defined.

(** X11: an input that ends right after the first key of the object makes
    [UnmarshalJSON] panic: the offset after the key is the length of the
    input, and the byte at the offset is read without a bounds check. *)
Theorem UnmarshalJSON_panics_after_last_key :
  forall key s fuel,
    plainText key = true ->
    UnmarshalJSON (S (S fuel)) s (123 :: 34 :: key ++ [34])
    = Panic (IndexOutOfRange (List.length key + 3) (List.length key + 3)).
Proof.
  intros key s fuel Hk. set (data := 123 :: 34 :: key ++ [34]).
  unfold UnmarshalJSON, nextToken. cbn [decoder].
  change (json.NewDecoder data) with (mkDec data 0 json.tokenTopValue []).
  unfold json.Token. rewrite Token_loop_unfold.
  rewrite (Token_body_open _ data 0 json.tokenTopValue [] 123 (34 :: key ++ [34])
             eq_refl (or_intror eq_refl) eq_refl).
  change (123 =? 91) with false. cbv iota. cbn [is_EOF set_decoder].
  change (negb (123 =? 123)) with false. cbv iota.
  unfold JSONunmarshal. rewrite JSONunmarshal_loop_S.
  unfold nextToken. cbn [decoder]. unfold json.Token. rewrite Token_loop_unfold.
  rewrite (Token_body_key _ data 1 json.tokenObjectStart [json.tokenTopValue] key []
             eq_refl (or_introl eq_refl) (plainText_plainKey key Hk)).
  cbn [isDelim is_EOF]. cbv iota zeta.
  rewrite UnmarshalCustomJSON_S.
  cbn [decoder set_decoder set_currentToken json.InputOffset mkDec json.scanp].
  replace (nth_error data (1 + S (S (List.length key)))) with (@None Z).
  - cbn [bind]. do 2 f_equal; subst data; solve_len.
  - symmetry. apply nth_error_None. subst data. solve_len.
Qed.

Lemma UnmarshalJSON_panics_after_last_key_witness :
  UnmarshalJSON 2 None (js "{'key'") = Panic (IndexOutOfRange 6 6).
Proof.
  apply (UnmarshalJSON_panics_after_last_key (bs "key") None 0). reflexivity.
Defined.

(** ** Order of the items *)

(** X12: the loop of [JSONunmarshal] only appends: whatever the input,
    when it returns, the items it was entered with are the first items of
    the result, unchanged and in the same order, and the items decoded
    come after them. *)
Theorem JSONunmarshal_loop_appends :
  forall fuel data d result r d',
    JSONunmarshal_loop fuel data d result = Ret (r, d') ->
    exists items, r = result ++ items.
Proof.
  induction fuel as [|fuel IH]; intros data d result r d' H; [discriminate|].
  rewrite JSONunmarshal_loop_S in H.
  destruct (nextToken d) as [[t e] d1].
  destruct (isDelim t 125).
  { inversion H; subst. exists []. now rewrite app_nil_r. }
  destruct (is_EOF e).
  { inversion H; subst. exists []. now rewrite app_nil_r. }
  cbv zeta in H.
  destruct (UnmarshalCustomJSON fuel data (set_currentToken d1 t))
    as [[mi d2]| | |]; cbn [bind] in H; try discriminate.
  destruct (IH _ _ _ _ _ H) as [items Hitems].
  exists (mi :: items). rewrite Hitems, <- app_assoc. reflexivity.
Qed.

Lemma JSONunmarshal_loop_appends_witness :
  exists items,
    [MkItem (bs "z") Nil; MkItem (bs "a") (AFloat64 (bs "1"));
     MkItem (bs "a") (AFloat64 (bs "2"))]
    = [MkItem (bs "z") Nil] ++ items.
Proof.
  apply (JSONunmarshal_loop_appends 5 (js "{'a':1,'a':2}")
           {| decoder := mkDec (js "{'a':1,'a':2}") 1 json.tokenObjectStart
                           [json.tokenTopValue];
              currentToken := Nil; d_err := None |}
           [MkItem (bs "z") Nil] _
           {| decoder := mkDec (js "{'a':1,'a':2}") 13 json.tokenTopValue [];
              currentToken := AFloat64 (bs "2"); d_err := None |}).
  reflexivity.
Defined.

(** ** Quoted texts are always unquoted

    [unquote] reports a failure only on text that the scanner rejects, so
    the failure case of [literalInterface] is never reached from
    [Decode]. *)

Lemma scanRun_end_only r s :
  scanRun json.stateEndValue r = Some s -> r = [] /\ s = json.stateEndValue.
Proof. destruct r; cbn; [intros E; inversion E; auto|discriminate]. Qed.

Lemma hexval_range c : json.isHex c = true -> 0 <= json.hexval c < 16.
Proof.
  unfold json.isHex, json.hexval, json.isDigit, strconv.isDigit.
  destruct ((48 <=? c) && (c <=? 57)) eqn:E1.
  { apply andb_true_iff in E1. destruct E1 as [A B].
    apply Z.leb_le in A, B. lia. }
  destruct ((97 <=? c) && (c <=? 102)) eqn:E2.
  { apply andb_true_iff in E2. destruct E2 as [A B].
    apply Z.leb_le in A, B. lia. }
  destruct ((65 <=? c) && (c <=? 70)) eqn:E3.
  { apply andb_true_iff in E3. destruct E3 as [A B].
    apply Z.leb_le in A, B. lia. }
  discriminate.
Qed.

(** The scanner inside a [\u] escape: four hexadecimal digits follow. *)
Lemma scanRun_u4 r :
  scanRun json.stateInStringEscU r = Some json.stateInString ->
  exists a b c d r',
    r = a :: b :: c :: d :: r' /\
    json.isHex a = true /\ json.isHex b = true /\
    json.isHex c = true /\ json.isHex d = true /\
    scanRun json.stateInString r' = Some json.stateInString.
Proof.
  intros H.
  destruct r as [|a r]; [discriminate|]. cbn [scanRun json.step] in H.
  destruct (json.isHex a) eqn:Ha; [|discriminate].
  destruct r as [|b r]; [discriminate|]. cbn [scanRun json.step] in H.
  destruct (json.isHex b) eqn:Hb; [|discriminate].
  destruct r as [|c r]; [discriminate|]. cbn [scanRun json.step] in H.
  destruct (json.isHex c) eqn:Hc; [|discriminate].
  destruct r as [|d r]; [discriminate|]. cbn [scanRun json.step] in H.
  destruct (json.isHex d) eqn:Hd; [|discriminate].
  exists a, b, c, d, r. auto 10.
Qed.

Lemma getu4_escape a b c d r :
  json.isHex a = true -> json.isHex b = true ->
  json.isHex c = true -> json.isHex d = true ->
  0 <= json.getu4 (92 :: 117 :: a :: b :: c :: d :: r).
Proof.
  intros Ha Hb Hc Hd. unfold json.getu4.
  change (92 =? 92) with true. change (117 =? 117) with true.
  rewrite Ha, Hb, Hc, Hd. cbn [andb].
  apply hexval_range in Ha, Hb, Hc, Hd. lia.
Qed.

(** A rune read by [getu4] stands at the head of a [\u] escape. *)
Lemma getu4_shape s :
  0 <= json.getu4 s ->
  exists a b c d r,
    s = 92 :: 117 :: a :: b :: c :: d :: r /\
    json.isHex a = true /\ json.isHex b = true /\
    json.isHex c = true /\ json.isHex d = true.
Proof.
  unfold json.getu4.
  destruct s as [|x [|y [|a [|b [|c [|d r]]]]]]; try lia.
  destruct (x =? 92) eqn:Ex; [|cbn; lia].
  destruct (y =? 117) eqn:Ey; [|cbn; lia].
  destruct (json.isHex a) eqn:Ha; [|cbn; lia].
  destruct (json.isHex b) eqn:Hb; [|cbn; lia].
  destruct (json.isHex c) eqn:Hc; [|cbn; lia].
  destruct (json.isHex d) eqn:Hd; [|cbn; lia].
  apply Z.eqb_eq in Ex, Ey. subst. intros _. exists a, b, c, d, r. auto 10.
Qed.

Lemma scanRun_escape_u a b c d r :
  json.isHex a = true -> json.isHex b = true ->
  json.isHex c = true -> json.isHex d = true ->
  scanRun json.stateInString (92 :: 117 :: a :: b :: c :: d :: r)
  = scanRun json.stateInString r.
Proof.
  intros Ha Hb Hc Hd.
  rewrite (scanRun_cons json.stateInString 92 _ json.stateInStringEsc eq_refl).
  rewrite (scanRun_cons json.stateInStringEsc 117 _ json.stateInStringEscU eq_refl).
  rewrite (scanRun_cons _ a _ json.stateInStringEscU1)
    by (cbn [json.step]; now rewrite Ha).
  rewrite (scanRun_cons _ b _ json.stateInStringEscU12)
    by (cbn [json.step]; now rewrite Hb).
  rewrite (scanRun_cons _ c _ json.stateInStringEscU123)
    by (cbn [json.step]; now rewrite Hc).
  rewrite (scanRun_cons _ d _ json.stateInString)
    by (cbn [json.step]; now rewrite Hd).
  reflexivity.
Qed.

Lemma utf16_DecodeRune_pair r1 r2 :
  utf16.DecodeRune r1 r2 <> 65533 -> 0 <= r2.
Proof.
  unfold utf16.DecodeRune.
  destruct ((55296 <=? r1) && (r1 <? 56320) && (56320 <=? r2) && (r2 <? 57344)) eqn:E;
    [|congruence].
  intros _. apply andb_true_iff in E. destruct E as [E _].
  apply andb_true_iff in E. destruct E as [_ E]. apply Z.leb_le in E. lia.
Qed.

Lemma option_map_some {A B} (f : A -> B) o : o <> None -> option_map f o <> None.
Proof. destruct o; [discriminate|congruence]. Qed.

(** The second loop of [unquoteBytes] succeeds on the inside of a string
    that the scanner has read. *)
Lemma unquote_rewrite_ok fuel body :
  (List.length body < fuel)%nat ->
  scanRun json.stateInString body = Some json.stateInString ->
  json.unquote_rewrite fuel body <> None.
Proof.
  revert body. induction fuel as [|fuel IH]; intros body Hlen Hscan; [lia|].
  destruct body as [|c r]; [discriminate|].
  cbn [json.unquote_rewrite]. cbn [List.length] in Hlen.
  destruct (c =? 92) eqn:E92.
  - apply Z.eqb_eq in E92. subst c.
    rewrite (scanRun_cons json.stateInString 92 _ json.stateInStringEsc eq_refl)
      in Hscan.
    destruct r as [|e r']; [discriminate|].
    cbn [List.length] in Hlen. cbn [scanRun json.step] in Hscan.
    destruct (e =? 117) eqn:Eu.
    + apply Z.eqb_eq in Eu. subst e.
      change ((117 =? 34) || (117 =? 92) || (117 =? 47) || (117 =? 39)) with false.
      change (117 =? 98) with false. change (117 =? 102) with false.
      change (117 =? 110) with false. change (117 =? 114) with false.
      change (117 =? 116) with false. change (117 =? 117) with true. cbv iota.
      change ((117 =? 98) || (117 =? 102) || (117 =? 110) || (117 =? 114)
              || (117 =? 116) || (117 =? 92) || (117 =? 47) || (117 =? 34))
        with false in Hscan.
      change (117 =? 117) with true in Hscan. cbv iota in Hscan.
      destruct (scanRun_u4 r' Hscan)
        as (a & b & c & d & r'' & -> & Ha & Hb & Hc & Hd & Hr).
      pose proof (getu4_escape a b c d r'' Ha Hb Hc Hd) as Hge.
      replace (json.getu4 (92 :: 117 :: a :: b :: c :: d :: r'') <? 0) with false
        by (symmetry; apply Z.ltb_ge; exact Hge).
      change (skipn 6 (92 :: 117 :: a :: b :: c :: d :: r'')) with r''.
      cbn [List.length] in Hlen.
      destruct (utf16.IsSurrogate _).
      * destruct (negb (utf16.DecodeRune _ (json.getu4 r'') =? 65533)) eqn:Ep.
        -- apply negb_true_iff, Z.eqb_neq in Ep.
           apply utf16_DecodeRune_pair in Ep.
           destruct (getu4_shape r'' Ep)
             as (a' & b' & c' & d' & r3 & -> & Ha' & Hb' & Hc' & Hd').
           change (skipn 6 (92 :: 117 :: a' :: b' :: c' :: d' :: r3)) with r3.
           rewrite scanRun_escape_u in Hr by assumption.
           apply option_map_some, IH; [cbn [List.length] in Hlen; lia|exact Hr].
        -- apply option_map_some, IH; [lia|exact Hr].
      * apply option_map_some, IH; [lia|exact Hr].
    + destruct ((e =? 98) || (e =? 102) || (e =? 110) || (e =? 114) || (e =? 116)
                || (e =? 92) || (e =? 47) || (e =? 34)) eqn:Ee; [|discriminate].
      assert (Hr : scanRun json.stateInString r' = Some json.stateInString)
        by exact Hscan.
      assert (Hrec : json.unquote_rewrite fuel r' <> None)
        by (apply IH; [lia|exact Hr]).
      repeat (apply orb_true_iff in Ee; destruct Ee as [Ee|Ee]);
        apply Z.eqb_eq in Ee; subst e; cbn; apply option_map_some, Hrec.
  - apply Z.eqb_neq in E92. cbn [scanRun json.step] in Hscan.
    destruct (c =? 34) eqn:E34.
    { apply scanRun_end_only in Hscan. destruct Hscan; discriminate. }
    replace (c =? 92) with false in Hscan by (symmetry; apply Z.eqb_neq; lia).
    destruct (c <? 32) eqn:E32; [discriminate|].
    cbn [orb]. destruct (c <? 128) eqn:E128.
    + apply option_map_some, IH; [lia|exact Hscan].
    + apply Z.ltb_ge in E128.
      destruct (utf8.DecodeRune (c :: r)) as [rr size] eqn:ED.
      destruct (DecodeRune_width c r rr size E128 ED)
        as (pre & rest & Hsplit & Hsz & H1 & Hhigh).
      assert (Hskip : skipn size (c :: r) = rest).
      { rewrite Hsplit, <- Hsz. clear. induction pre; [reflexivity|exact IHpre]. }
      rewrite Hskip. apply option_map_some, IH.
      * assert (List.length (c :: r) = (List.length pre + List.length rest)%nat)
          by (rewrite Hsplit; apply length_app).
        cbn [List.length] in *. lia.
      * rewrite <- (scanRun_high pre rest Hhigh), <- Hsplit.
        cbn [scanRun json.step]. rewrite E34.
        replace (c =? 92) with false by (symmetry; apply Z.eqb_neq; lia).
        rewrite E32. exact Hscan.
Qed.

(** Every quoted text that the scanner reads to its closing quotation mark
    is unquoted: [literalInterface] takes its text from [unquote]. *)
Lemma unquote_scanned body :
  scanRun json.stateInString body = Some json.stateInString ->
  exists s, json.unquote (34 :: body ++ [34]) = Some s /\
            json.literalInterface (34 :: body ++ [34]) = (AString s, None).
Proof.
  intros Hscan.
  assert (Hu : json.unquote (34 :: body ++ [34]) <> None).
  { unfold json.unquote. rewrite rev_app_distr. cbn [rev app].
    rewrite rev_involutive.
    destruct (json.unquote_plain _ body); [discriminate|].
    apply unquote_rewrite_ok; [lia|exact Hscan]. }
  destruct (json.unquote (34 :: body ++ [34])) as [s|] eqn:E; [|congruence].
  exists s. split; [reflexivity|].
  cbn [json.literalInterface]. change (34 =? 110) with false.
  change ((34 =? 116) || (34 =? 102)) with false. change (34 =? 34) with true.
  cbv iota. change (34 :: body ++ [34]) with (34 :: (body ++ [34])) in E.
  rewrite E. reflexivity.
Qed.
